(** * casbin-datastore-adapter: the rule codec, the key scheme, the filter
      mapper and the load/save orchestration of [adapter.go], embedded in
      Rocq and checked against the written specification. *)

From Stdlib Require Import ZArith NArith Ascii String List Lia Bool Permutation.
From stdpp Require Import base option list strings gmap fin_maps.

Local Open Scope Z_scope.

(** ** Go strings

    A Go [string] is a sequence of bytes; it is modelled by Rocq's [string]
    (a list of 8-bit characters). *)

Module strings.

(** The six ASCII white-space bytes of Go's [asciiSpace] table:
    ['\t'], ['\n'], ['\v'], ['\f'], ['\r'] and [' ']. *)
Definition asciiSpace (c : ascii) : bool :=
  let n := N_of_ascii c in
  ((9 <=? n) && (n <=? 13) || (n =? 32))%N.

(** UTF-8 encodings of the remaining runes for which [unicode.IsSpace]
    holds.  Two bytes: U+0085 (C2 85) and U+00A0 (C2 A0). *)
Definition space2 (b1 b2 : ascii) : bool :=
  let n1 := N_of_ascii b1 in
  let n2 := N_of_ascii b2 in
  ((n1 =? 194) && ((n2 =? 133) || (n2 =? 160)))%N.

(** Three bytes: U+1680 (E1 9A 80), U+2000..U+200A (E2 80 80 .. E2 80 8A),
    U+2028, U+2029, U+202F (E2 80 A8, E2 80 A9, E2 80 AF),
    U+205F (E2 81 9F) and U+3000 (E3 80 80). *)
Definition space3 (b1 b2 b3 : ascii) : bool :=
  let n1 := N_of_ascii b1 in
  let n2 := N_of_ascii b2 in
  let n3 := N_of_ascii b3 in
  ((n1 =? 225) && (n2 =? 154) && (n3 =? 128)
   || (n1 =? 226) && (n2 =? 128)
      && ((128 <=? n3) && (n3 <=? 138)
          || (n3 =? 168) || (n3 =? 169) || (n3 =? 175))
   || (n1 =? 226) && (n2 =? 129) && (n3 =? 159)
   || (n1 =? 227) && (n2 =? 128) && (n3 =? 128))%N.

(** [TrimLeftFunc s unicode.IsSpace]: drop leading white-space runes.  A
    byte sequence that is not the encoding of a white-space rune (an
    invalid sequence decodes to [RuneError]) stops the scan. *)
Fixpoint trimLeftSpace (s : string) : string :=
  match s with
  | EmptyString => s
  | String b1 s1 =>
      if asciiSpace b1 then trimLeftSpace s1
      else match s1 with
           | EmptyString => s
           | String b2 s2 =>
               if space2 b1 b2 then trimLeftSpace s2
               else match s2 with
                    | EmptyString => s
                    | String b3 s3 =>
                        if space3 b1 b2 b3 then trimLeftSpace s3 else s
                    end
           end
  end.

(** The same scan on the reversed string: the bytes of a rune arrive last
    byte first.  [DecodeLastRuneInString] walks back to the nearest
    rune-start byte, so a suffix that encodes a white-space rune is always
    decoded as that rune. *)
Fixpoint trimLeftSpaceRev (s : string) : string :=
  match s with
  | EmptyString => s
  | String b1 s1 =>
      if asciiSpace b1 then trimLeftSpaceRev s1
      else match s1 with
           | EmptyString => s
           | String b2 s2 =>
               if space2 b2 b1 then trimLeftSpaceRev s2
               else match s2 with
                    | EmptyString => s
                    | String b3 s3 =>
                        if space3 b3 b2 b1 then trimLeftSpaceRev s3 else s
                    end
           end
  end.

(** [TrimRightFunc s unicode.IsSpace]. *)
Definition trimRightSpace (s : string) : string :=
  String.rev (trimLeftSpaceRev (String.rev s)).

(** [strings.TrimSpace]: all leading and trailing white space removed, as
    defined by Unicode. *)
Definition TrimSpace (s : string) : string :=
  trimRightSpace (trimLeftSpace s).

(** Go's [s == ""]. *)
Definition isEmpty (s : string) : bool :=
  match s with
  | EmptyString => true
  | String _ _ => false
  end.

End strings.

Import strings.

(** ** The persisted record *)

(** [CasbinRule] represents a rule in Casbin. *)
Record CasbinRule : Type := mkCasbinRule {
  PType : string;
  V0 : string;
  V1 : string;
  V2 : string;
  V3 : string;
  V4 : string;
  V5 : string
}.

#[global] Instance CasbinRule_eq_dec : EqDecision CasbinRule.
Proof. solve_decision. Defined.

(** The closure [appendOrTerminate] of [CasbinRule.String]. *)
Definition appendOrTerminate (currentStr strToAdd : string) : string * bool :=
  let tmp := TrimSpace strToAdd in
  if isEmpty tmp then (currentStr, false)
  else if isEmpty currentStr then (tmp, true)
       else (currentStr +:+ "," +:+ tmp, true).

(** [CasbinRule.String]: string version of the Casbin rule (CSV basically),
    usable as a database key. *)
Definition CasbinRule_String (cr : CasbinRule) : string :=
  let res := "" in
  let '(res, added) := appendOrTerminate res (PType cr) in
  if negb added then res else
  let '(res, added) := appendOrTerminate res (V0 cr) in
  if negb added then res else
  let '(res, added) := appendOrTerminate res (V1 cr) in
  if negb added then res else
  let '(res, added) := appendOrTerminate res (V2 cr) in
  if negb added then res else
  let '(res, added) := appendOrTerminate res (V3 cr) in
  if negb added then res else
  let '(res, added) := appendOrTerminate res (V4 cr) in
  if negb added then res else
  let '(res, added) := appendOrTerminate res (V5 cr) in
  res.

(** [len(rule) > i] guards [rule[i]]; a slot that is not assigned keeps the
    zero value [""] of the struct literal. *)
Definition fieldAt (rule : list string) (i : nat) : string :=
  if (Z.of_nat (length rule) >? Z.of_nat i) then default "" (rule !! i) else "".

Definition savePolicyLine (ptype : string) (rule : list string) : CasbinRule :=
  {| PType := ptype;
     V0 := fieldAt rule 0;
     V1 := fieldAt rule 1;
     V2 := fieldAt rule 2;
     V3 := fieldAt rule 3;
     V4 := fieldAt rule 4;
     V5 := fieldAt rule 5 |}.

(** The token list that [loadPolicyLine] collects between [tokens := []string{}]
    and the label [LineEnd]: every [else] branch jumps to [LineEnd]. *)
Definition loadPolicyLine_tokens (line : CasbinRule) : list string :=
  let tokens := [] in
  if negb (isEmpty (V0 line)) then
    let tokens := tokens ++ [V0 line] in
    if negb (isEmpty (V1 line)) then
      let tokens := tokens ++ [V1 line] in
      if negb (isEmpty (V2 line)) then
        let tokens := tokens ++ [V2 line] in
        if negb (isEmpty (V3 line)) then
          let tokens := tokens ++ [V3 line] in
          if negb (isEmpty (V4 line)) then
            let tokens := tokens ++ [V4 line] in
            if negb (isEmpty (V5 line)) then
              tokens ++ [V5 line]
            else tokens
          else tokens
        else tokens
      else tokens
    else tokens
  else tokens.

(** ** The document store

    A model of the part of [cloud.google.com/go/datastore] that the adapter
    calls: keys, queries, the client's calls and its transaction primitive.
    Every call that reaches the service can fail: the environment hands each
    such call the next entry of a fault script, and a call that is handed an
    error returns it without touching the stored entities. *)

Module datastore.

Inductive error : Type :=
| ErrNoSuchEntity
| ErrInvalidKey
| ErrConcurrentTransaction
| ErrOther (msg : string).

#[global] Instance error_eq_dec : EqDecision error.
Proof. solve_decision. Defined.

(** [datastore.Key]; a [*Key] that may be [nil] is an [option Key]. *)
#[local] Unset Elimination Schemes.
Inductive Key : Type := mkKey {
  Kind : string;
  ID : Z;
  Name : string;
  Parent : option Key;
  Namespace : string
}.
#[local] Set Elimination Schemes.

(** [IDKey] and [NameKey] fill in kind, identifier and parent and leave
    [Namespace] at its zero value. *)
Definition IDKey (kind : string) (id : Z) (parent : option Key) : Key :=
  {| Kind := kind; ID := id; Name := ""; Parent := parent; Namespace := "" |}.

Definition NameKey (kind name : string) (parent : option Key) : Key :=
  {| Kind := kind; ID := 0; Name := name; Parent := parent; Namespace := "" |}.

(** The assignment [key.Namespace = ns]. *)
Definition set_Namespace (key : Key) (ns : string) : Key :=
  {| Kind := Kind key; ID := ID key; Name := Name key;
     Parent := Parent key; Namespace := ns |}.

(** [Key.Incomplete]: the key does not refer to a stored entity. *)
Definition Incomplete (k : Key) : bool :=
  isEmpty (Name k) && (ID k =? 0).

(** [Key.valid]. *)
Fixpoint valid (k : Key) : bool :=
  negb (isEmpty (Kind k))
  && negb (negb (isEmpty (Name k)) && negb (ID k =? 0))
  && match Parent k with
     | None => true
     | Some p =>
         negb (Incomplete p) && String.eqb (Namespace p) (Namespace k) && valid p
     end.

(** The path of a key, leaf first; keys and paths correspond one to one. *)
Fixpoint key_path (k : Key) : list (string * Z * string * string) :=
  (Kind k, ID k, Name k, Namespace k)
    :: match Parent k with
       | None => []
       | Some p => key_path p
       end.

Fixpoint path_key (l : list (string * Z * string * string)) : option Key :=
  match l with
  | [] => None
  | (kind, id, name, ns) :: l' =>
      Some {| Kind := kind; ID := id; Name := name;
              Parent := path_key l'; Namespace := ns |}
  end.

Fixpoint path_key_path (k : Key) : path_key (key_path k) = Some k :=
  match k with
  | mkKey kind id name parent ns =>
      match parent as o
            return path_key (key_path (mkKey kind id name o ns))
                   = Some (mkKey kind id name o ns)
      with
      | None => eq_refl
      | Some p =>
          eq_ind_r
            (fun o => Some (mkKey kind id name o ns)
                      = Some (mkKey kind id name (Some p) ns))
            eq_refl (path_key_path p)
      end
  end.

#[global] Instance Key_eq_dec : EqDecision Key.
Proof.
  intros k1 k2. destruct (decide (key_path k1 = key_path k2)) as [H|H].
  - left. apply (f_equal path_key) in H.
    rewrite !path_key_path in H. congruence.
  - right. intros ->. by apply H.
Defined.

#[global] Instance Key_countable : Countable Key :=
  inj_countable key_path path_key path_key_path.

(** [k] is [anc] or a descendant of it (ancestor queries include the
    ancestor itself). *)
Fixpoint hasAncestor (anc : Key) (k : Key) : bool :=
  bool_decide (k = anc)
  || match Parent k with
     | None => false
     | Some p => hasAncestor anc p
     end.

(** Filter operators of [Query.Filter]. *)
Inductive operator : Type := opLess | opLessEq | opEqual | opGreaterEq | opGreater.

Record filter : Type := mkFilter {
  FieldName : string;
  Op : operator;
  Value : string
}.

(** [datastore.Query], as far as the adapter configures it. *)
Record Query : Type := mkQuery {
  q_kind : string;
  q_namespace : string;
  q_ancestor : option Key;
  q_filter : list filter;
  q_keysOnly : bool
}.

Definition NewQuery (kind : string) : Query :=
  {| q_kind := kind; q_namespace := ""; q_ancestor := None;
     q_filter := []; q_keysOnly := false |}.

Definition Query_Namespace (q : Query) (ns : string) : Query :=
  {| q_kind := q_kind q; q_namespace := ns; q_ancestor := q_ancestor q;
     q_filter := q_filter q; q_keysOnly := q_keysOnly q |}.

(** [q.Filter("<field> <op>", value)] with the filter string already split
    into field name and operator. *)
Definition Query_Filter (q : Query) (field : string) (op : operator)
    (value : string) : Query :=
  {| q_kind := q_kind q; q_namespace := q_namespace q;
     q_ancestor := q_ancestor q;
     q_filter := q_filter q ++ [mkFilter field op value];
     q_keysOnly := q_keysOnly q |}.

Definition Query_Ancestor (q : Query) (ancestor : Key) : Query :=
  {| q_kind := q_kind q; q_namespace := q_namespace q;
     q_ancestor := Some ancestor;
     q_filter := q_filter q; q_keysOnly := q_keysOnly q |}.

Definition Query_KeysOnly (q : Query) : Query :=
  {| q_kind := q_kind q; q_namespace := q_namespace q;
     q_ancestor := q_ancestor q;
     q_filter := q_filter q; q_keysOnly := true |}.

(** The property of a stored rule named by a struct tag
    ([`datastore:"ptype"`], [`datastore:"v0"`], ...). *)
Definition property (r : CasbinRule) (name : string) : option string :=
  if String.eqb name "ptype" then Some (PType r)
  else if String.eqb name "v0" then Some (V0 r)
  else if String.eqb name "v1" then Some (V1 r)
  else if String.eqb name "v2" then Some (V2 r)
  else if String.eqb name "v3" then Some (V3 r)
  else if String.eqb name "v4" then Some (V4 r)
  else if String.eqb name "v5" then Some (V5 r)
  else None.

(** String values are ordered byte-wise. *)
Definition compareOp (op : operator) (x y : string) : bool :=
  match op, String.compare x y with
  | opLess, Lt => true
  | opLessEq, (Lt | Eq) => true
  | opEqual, Eq => true
  | opGreaterEq, (Gt | Eq) => true
  | opGreater, Gt => true
  | _, _ => false
  end.

Definition satisfies (r : CasbinRule) (f : filter) : bool :=
  match property r (FieldName f) with
  | Some x => compareOp (Op f) x (Value f)
  | None => false
  end.

Definition matches (q : Query) (k : Key) (r : CasbinRule) : bool :=
  String.eqb (Kind k) (q_kind q)
  && String.eqb (Namespace k) (q_namespace q)
  && match q_ancestor q with
     | None => true
     | Some anc => hasAncestor anc k
     end
  && forallb (satisfies r) (q_filter q).

(** What the store holds, and what the environment will do to the calls
    still to come. *)
Record World : Type := mkWorld {
  entities : gmap Key CasbinRule;
  faults : list (option error)
}.

(** Computations against the store. *)
Definition M (A : Type) : Type := World → A * World.

Definition ret {A} (a : A) : M A := λ w, (a, w).

Definition bind {A B} (c : M A) (k : A → M B) : M B :=
  λ w, let '(a, w') := c w in k a w'.

(** One round trip to the service: the next entry of the fault script. *)
Definition rpc : M (option error) :=
  λ w, match faults w with
       | [] => (None, w)
       | e :: fs => (e, {| entities := entities w; faults := fs |})
       end.

Definition getEntities : M (gmap Key CasbinRule) := λ w, (entities w, w).

Definition setEntities (m : gmap Key CasbinRule) : M unit :=
  λ w, (tt, {| entities := m; faults := faults w |}).

Notation "'let*' p ':=' c 'in' k" := (bind c (fun p => k))
  (at level 10, p pattern, c at level 200, k at level 200, only parsing).

(** The mutations of a commit request.  A put under an incomplete key is
    an insert: the service allocates the numeric identifier. *)
Inductive Mutation : Type :=
| mutUpsert (k : Key) (r : CasbinRule)
| mutInsert (k : Key) (r : CasbinRule)
| mutDelete (k : Key).

Definition maxID (m : gmap Key CasbinRule) : Z :=
  map_fold (λ k _ acc, Z.max (ID k) acc) 0 m.

(** A key for an inserted entity: an identifier no stored key carries. *)
Definition allocate (m : gmap Key CasbinRule) (k : Key) : Key :=
  {| Kind := Kind k; ID := maxID m + 1; Name := Name k;
     Parent := Parent k; Namespace := Namespace k |}.

Definition applyMutation (m : gmap Key CasbinRule) (mu : Mutation)
    : gmap Key CasbinRule :=
  match mu with
  | mutUpsert k r => <[k := r]> m
  | mutInsert k r => <[allocate m k := r]> m
  | mutDelete k => delete k m
  end.

Definition applyMutations (m : gmap Key CasbinRule) (mus : list Mutation)
    : gmap Key CasbinRule :=
  foldl applyMutation m mus.

(** [putMutations] for one key: an invalid key is refused before anything
    is sent. *)
Definition putMutation (k : Key) (r : CasbinRule) : error + Mutation :=
  if negb (valid k) then inl ErrInvalidKey
  else if Incomplete k then inr (mutInsert k r)
       else inr (mutUpsert k r).

(** [deleteMutations]: an incomplete key cannot be deleted. *)
Definition deleteMutations (keys : list Key) : error + list Mutation :=
  if existsb Incomplete keys
  then inl (ErrOther "datastore: can't delete the incomplete key")
  else inr (map mutDelete keys).

(** A commit request: all of its mutations are applied, or none. *)
Definition Commit (mus : list Mutation) : M (option error) :=
  let* e := rpc in
  match e with
  | Some err => ret (Some err)
  | None =>
      let* m := getEntities in
      let* _ := setEntities (applyMutations m mus) in
      ret None
  end.

(** [Client.Put], [Client.DeleteMulti], [Client.Delete]. *)
Definition Put (key : Key) (src : CasbinRule) : M (option error) :=
  match putMutation key src with
  | inl err => ret (Some err)
  | inr mu => Commit [mu]
  end.

Definition DeleteMulti (keys : list Key) : M (option error) :=
  match deleteMutations keys with
  | inl err => ret (Some err)
  | inr mus => Commit mus
  end.


(** [Client.GetAll]: the keys of the matching entities and, unless the
    query is keys-only, the entities themselves.  The order in which the
    store returns them is its own. *)
Definition runQuery (q : Query) (m : gmap Key CasbinRule)
    : list (Key * CasbinRule) :=
  List.filter (λ kr, matches q kr.1 kr.2) (map_to_list m).

Definition GetAll (q : Query)
    : M (list Key * list CasbinRule * option error) :=
  let* e := rpc in
  match e with
  | Some err => ret ([], [], Some err)
  | None =>
      let* m := getEntities in
      let found := runQuery q m in
      ret (found.*1, if q_keysOnly q then [] else found.*2, None)
  end.

(** [datastore.Transaction]: mutations are buffered and sent on commit.
    A call on the transaction can be failed by the environment like any
    other call; a failed call buffers nothing. *)
Record Transaction : Type := mkTransaction {
  mutations : list Mutation
}.

Definition Transaction_Put (tx : Transaction) (key : Key) (src : CasbinRule)
    : M (option error * Transaction) :=
  match putMutation key src with
  | inl err => ret (Some err, tx)
  | inr mu =>
      let* e := rpc in
      match e with
      | Some err => ret (Some err, tx)
      | None => ret (None, {| mutations := mutations tx ++ [mu] |})
      end
  end.

Definition Transaction_DeleteMulti (tx : Transaction) (keys : list Key)
    : M (option error * Transaction) :=
  match deleteMutations keys with
  | inl err => ret (Some err, tx)
  | inr mus =>
      let* e := rpc in
      match e with
      | Some err => ret (Some err, tx)
      | None => ret (None, {| mutations := mutations tx ++ mus |})
      end
  end.

(** The loop of [Client.RunInTransaction]: begin, run [f], roll back when
    [f] fails, commit otherwise, and start over when the commit reports a
    conflicting transaction. *)
Fixpoint runAttempts (attempts : nat)
    (f : Transaction → M (option error * Transaction)) : M (option error) :=
  match attempts with
  | O => ret (Some ErrConcurrentTransaction)
  | S n =>
      let* e := rpc in
      match e with
      | Some err => ret (Some err)
      | None =>
          let* (ferr, tx) := f {| mutations := [] |} in
          match ferr with
          | Some err =>
              let* _ := rpc in
              ret (Some err)
          | None =>
              let* c := Commit (mutations tx) in
              match c with
              | Some ErrConcurrentTransaction => runAttempts n f
              | c => ret c
              end
          end
      end
  end.

Definition maxAttempts : nat := 3.

Definition RunInTransaction
    (f : Transaction → M (option error * Transaction)) : M (option error) :=
  runAttempts maxAttempts f.

End datastore.

Import datastore.

(** ** Go run-time failures *)

Inductive panic : Type :=
| SliceBoundsOutOfRange
| IndexOutOfRange
| NilPointerDereference.

Inductive outcome (A : Type) : Type :=
| Ret (a : A)
| Panic (p : panic).

Arguments Ret {A} a.
Arguments Panic {A} p.

(** [s[:1]]. *)
Definition sliceTo1 (s : string) : outcome string :=
  match s with
  | EmptyString => Panic SliceBoundsOutOfRange
  | String b _ => Ret (String b EmptyString)
  end.

(** Go's [int] is 64 bits wide; sums and differences wrap around. *)
Definition int_min : Z := - 2 ^ 63.
Definition int_max : Z := 2 ^ 63 - 1.
Definition int_wrap (z : Z) : Z := (z + 2 ^ 63) mod 2 ^ 64 - 2 ^ 63.
Definition int_add (x y : Z) : Z := int_wrap (x + y).
Definition int_sub (x y : Z) : Z := int_wrap (x - y).
Definition is_int (z : Z) : Prop := int_min <= z <= int_max.

(** [len(l)]. *)
Definition len {A} (l : list A) : Z := Z.of_nat (length l).

(** [l[i]]: an index outside [0 <= i < len(l)] panics. *)
Definition index (l : list string) (i : Z) : outcome string :=
  if (0 <=? i) && (i <? len l) then
    match l !! Z.to_nat i with
    | Some v => Ret v
    | None => Panic IndexOutOfRange
    end
  else Panic IndexOutOfRange.

(** ** The policy engine's model

    [model.Model] maps a section name to an [AssertionMap], which maps a
    rule-type name to an assertion; the adapter reads and extends the
    assertion's [Policy]. *)

Record Assertion : Type := mkAssertion {
  Key_ : string;
  Value_ : string;
  Tokens : list string;
  Policy : list (list string)
}.

Definition set_Policy (ast : Assertion) (policy : list (list string)) : Assertion :=
  {| Key_ := Key_ ast; Value_ := Value_ ast; Tokens := Tokens ast;
     Policy := policy |}.

(** [model[sec]]: a missing section reads as the empty map. *)
Definition section (model : gmap string (gmap string Assertion)) (sec : string)
    : gmap string Assertion :=
  default ∅ (model !! sec).

(** [loadPolicyLine]: [key[:1]] panics on an empty type tag, and
    [model[sec][key].Policy] panics when the model holds no assertion there. *)
Definition loadPolicyLine (line : CasbinRule)
    (model : gmap string (gmap string Assertion))
    : outcome (gmap string (gmap string Assertion)) :=
  let key := PType line in
  match sliceTo1 key with
  | Panic e => Panic e
  | Ret sec =>
      let tokens := loadPolicyLine_tokens line in
      match section model sec !! key with
      | None => Panic NilPointerDereference
      | Some ast =>
          Ret (<[sec := <[key := set_Policy ast (Policy ast ++ [tokens])]>
                          (section model sec)]> model)
      end
  end.

(** ** The adapter *)

Definition casbinKind : string := "casbin".

(** [time.Duration] counts nanoseconds. *)
Definition Second : Z := 1000000000.
Definition Minute : Z := 60 * Second.

Record Config : Type := mkConfig {
  Kind : string;
  Namespace : string;
  Debug : bool;
  LoadSaveFilterDeadline : Z;
  AddRemoveDeadline : Z
}.

(** The adapter's [db] handle is the store that the computations in
    [datastore.M] act on. *)
Record adapter : Type := mkAdapter {
  config : Config
}.

Definition NewAdapterWithConfig (config : Config) : adapter :=
  let kind := if isEmpty (TrimSpace (Kind config)) then casbinKind
              else Kind config in
  let loadSave := if LoadSaveFilterDeadline config =? 0 then Minute * 10
                  else LoadSaveFilterDeadline config in
  let addRemove := if AddRemoveDeadline config =? 0 then Second * 30
                   else AddRemoveDeadline config in
  {| config := {| Kind := kind; Namespace := Namespace config;
                  Debug := Debug config;
                  LoadSaveFilterDeadline := loadSave;
                  AddRemoveDeadline := addRemove |} |}.

Definition NewAdapter : adapter :=
  NewAdapterWithConfig
    {| Kind := ""; Namespace := ""; Debug := false;
       LoadSaveFilterDeadline := 0; AddRemoveDeadline := 0 |}.

Definition pseudoRootKey (a : adapter) : Key :=
  let key := IDKey (Kind (config a)) 1 None in
  set_Namespace key (Namespace (config a)).

Definition newQuery (a : adapter) : Query :=
  Query_Ancestor
    (Query_Filter
       (Query_Namespace (NewQuery (Kind (config a))) (Namespace (config a)))
       "ptype" opGreater "")
    (pseudoRootKey a).

(** The loop of [LoadPolicy] over the fetched rules. *)
Fixpoint loadPolicyLines (rules : list CasbinRule)
    (model : gmap string (gmap string Assertion))
    : outcome (gmap string (gmap string Assertion)) :=
  match rules with
  | [] => Ret model
  | l :: rules' =>
      match loadPolicyLine l model with
      | Panic e => Panic e
      | Ret model' => loadPolicyLines rules' model'
      end
  end.

(** [LoadPolicy]: the model as the call leaves it, and the error returned. *)
Definition LoadPolicy (a : adapter) (model : gmap string (gmap string Assertion))
    : M (outcome (gmap string (gmap string Assertion) * option error)) :=
  let query := newQuery a in
  let* (_, rules, err) := GetAll query in
  match err with
  | Some e => ret (Ret (model, Some e))
  | None =>
      match loadPolicyLines rules model with
      | Panic e => ret (Panic e)
      | Ret model' => ret (Ret (model', None))
      end
  end.

(** The two loops of [SavePolicy] that turn the rules of one section into
    lines, in the order in which the section's map is ranged over. *)
Definition sectionLines (model : gmap string (gmap string Assertion))
    (sec : string) : list CasbinRule :=
  flat_map (λ '(ptype, ast), map (savePolicyLine ptype) (Policy ast))
           (map_to_list (section model sec)).

(** The key that [SavePolicy] puts a line under. *)
Definition SavePolicy_key (a : adapter) (ancestor : Key) (line : CasbinRule) : Key :=
  let name := CasbinRule_String line in
  let key := NameKey (Kind (config a)) name (Some ancestor) in
  set_Namespace key (Namespace (config a)).

(** The loop of puts inside the transaction of [SavePolicy]. *)
Fixpoint putLines (a : adapter) (ancestor : Key) (lines : list CasbinRule)
    (tx : Transaction) : M (option error * Transaction) :=
  match lines with
  | [] => ret (None, tx)
  | line :: lines' =>
      let key := SavePolicy_key a ancestor line in
      let* (err, tx) := Transaction_Put tx key line in
      match err with
      | Some e => ret (Some e, tx)
      | None => putLines a ancestor lines' tx
      end
  end.

Definition SavePolicy (a : adapter) (model : gmap string (gmap string Assertion))
    : M (option error) :=
  let* (keys, _, err) := GetAll (Query_KeysOnly (newQuery a)) in
  match err with
  | Some e => ret (Some e)
  | None =>
      let lines := sectionLines model "p" ++ sectionLines model "g" in
      let ancestor := pseudoRootKey a in
      RunInTransaction (λ tx,
        let* (err, tx) := Transaction_DeleteMulti tx keys in
        match err with
        | Some e => ret (Some e, tx)
        | None => putLines a ancestor lines tx
        end)
  end.

(** The key that [AddPolicy] builds. *)
Definition AddPolicy_key (a : adapter) (line : CasbinRule) : Key :=
  let name := CasbinRule_String line in
  let key := NameKey (Kind (config a)) name (Some (pseudoRootKey a)) in
  set_Namespace key (Namespace (config a)).

Definition AddPolicy (a : adapter) (sec ptype : string) (rule : list string)
    : M (option error) :=
  let line := savePolicyLine ptype rule in
  let key := AddPolicy_key a line in
  Put key line.



(** One of the six blocks of [RemoveFilteredPolicy] that fill [selector]:
    the block for slot position [p], whose field is called [name]. *)
Definition selectSlot (p : Z) (name : string) (fieldIndex : Z)
    (fieldValues : list string) (selector : gmap string string)
    : outcome (gmap string string) :=
  if (fieldIndex <=? p) && (p <? int_add fieldIndex (len fieldValues)) then
    match index fieldValues (int_sub p fieldIndex) with
    | Panic e => Panic e
    | Ret v =>
        if negb (isEmpty v) then
          match index fieldValues (int_sub p fieldIndex) with
          | Panic e => Panic e
          | Ret v' => Ret (<[name := v']> selector)
          end
        else Ret selector
    end
  else Ret selector.

Definition andThen {A B} (o : outcome A) (k : A → outcome B) : outcome B :=
  match o with
  | Panic e => Panic e
  | Ret a => k a
  end.

(** The selector that [RemoveFilteredPolicy] builds before it queries. *)
Definition RemoveFilteredPolicy_selector (ptype : string) (fieldIndex : Z)
    (fieldValues : list string) : outcome (gmap string string) :=
  let selector : gmap string string := <["ptype" := ptype]> ∅ in
  andThen (selectSlot 0 "v0" fieldIndex fieldValues selector) (λ selector,
  andThen (selectSlot 1 "v1" fieldIndex fieldValues selector) (λ selector,
  andThen (selectSlot 2 "v2" fieldIndex fieldValues selector) (λ selector,
  andThen (selectSlot 3 "v3" fieldIndex fieldValues selector) (λ selector,
  andThen (selectSlot 4 "v4" fieldIndex fieldValues selector) (λ selector,
  selectSlot 5 "v5" fieldIndex fieldValues selector))))).

(** The query narrowed by one equality filter per selector entry. *)
Definition RemoveFilteredPolicy_query (a : adapter) (selector : gmap string string)
    : Query :=
  foldl (λ query '(k, v), Query_Filter query k opEqual v)
        (newQuery a) (map_to_list selector).

Definition RemoveFilteredPolicy (a : adapter) (sec ptype : string)
    (fieldIndex : Z) (fieldValues : list string) : M (outcome (option error)) :=
  match RemoveFilteredPolicy_selector ptype fieldIndex fieldValues with
  | Panic e => ret (Panic e)
  | Ret selector =>
      let query := RemoveFilteredPolicy_query a selector in
      let* (keys, rules, err) := GetAll query in
      match err with
      | Some ErrNoSuchEntity => ret (Ret None)
      | Some e => ret (Ret (Some e))
      | None =>
          let* err := DeleteMulti keys in
          ret (Ret err)
      end
  end.

(** ** The identity as the specification words it

    "Build by successively appending type tag, then slot 0, slot 1, ... slot 5;
    appending means: trim whitespace; if the trimmed value is empty, stop and
    return what has been joined so far (comma-separated)." *)

Definition slots (cr : CasbinRule) : list string :=
  [V0 cr; V1 cr; V2 cr; V3 cr; V4 cr; V5 cr].

(** The values up to the first empty one. *)
Fixpoint untilEmpty (l : list string) : list string :=
  match l with
  | [] => []
  | x :: l' => if isEmpty x then [] else x :: untilEmpty l'
  end.

(** The values joined with commas. *)
Fixpoint joinComma (l : list string) : string :=
  match l with
  | [] => ""
  | [x] => x
  | x :: l' => x +:+ "," +:+ joinComma l'
  end.

(** The trimmed values that make up the identity: the type tag first, then
    the slots that were appended. *)
Definition identity_values (cr : CasbinRule) : list string :=
  untilEmpty (map TrimSpace (PType cr :: slots cr)).

Definition identity_spec (cr : CasbinRule) : string :=
  joinComma (identity_values cr).


(** A value that [TrimSpace] leaves as it is. *)
Definition trimmed (s : string) : Prop := TrimSpace s = s.


(** A model that declares the rule types "p" (section "p") and "g"
    (section "g"), with no rules yet. *)
Definition emptyAssertion (key : string) : Assertion :=
  {| Key_ := key; Value_ := ""; Tokens := []; Policy := [] |}.

Definition rbacModel : gmap string (gmap string Assertion) :=
  <["p" := <["p" := emptyAssertion "p"]> ∅]>
    (<["g" := <["g" := emptyAssertion "g"]> ∅]> ∅).

(** A store that fails none of the calls still to come. *)
Definition healthy (w : World) : Prop := Forall (λ e, e = None) (faults w).

(** The world after one more entry of the fault script has been used up. *)
Definition consume (w : World) : World :=
  {| entities := entities w; faults := tail (faults w) |}.

(** The rules that the fetch of [LoadPolicy] returns from a world. *)
Definition fetched (a : adapter) (w : World) : list CasbinRule :=
  (GetAll (newQuery a) w).1.1.2.

(** The mutation that a put of [line] under [key] sends. *)
Definition putOf (key : Key) (line : CasbinRule) : Mutation :=
  if Incomplete key then mutInsert key line else mutUpsert key line.

(** The record set after a save, as the specification words it: every key
    of the partition deleted, then every line of the "p" and "g" sections
    put under its content-derived key. *)
Definition saveMutations (a : adapter)
    (model : gmap string (gmap string Assertion))
    (m : gmap Key CasbinRule) : list Mutation :=
  map mutDelete (runQuery (Query_KeysOnly (newQuery a)) m).*1
  ++ map (λ line, putOf (SavePolicy_key a (pseudoRootKey a) line) line)
         (sectionLines model "p" ++ sectionLines model "g").

(** The configuration of the adapter's own tests. *)
Definition testConfig : Config :=
  {| Kind := "casbin_test"; Namespace := "unittest"; Debug := false;
     LoadSaveFilterDeadline := 0; AddRemoveDeadline := 0 |}.

(** A slice cannot hold more elements than the 2^48 bytes of address space
    that Go's allocator manages. *)
Definition maxLen : Z := 2 ^ 48.

(** The field name of slot position [p]. *)
Definition slotName (p : Z) : string :=
  if p =? 0 then "v0" else if p =? 1 then "v1" else if p =? 2 then "v2"
  else if p =? 3 then "v3" else if p =? 4 then "v4" else "v5".

(** The filter mapping as the specification words it: slot [p] is covered
    when [fieldIndex <= p < fieldIndex + len(values)], and then its value is
    [values[p - fieldIndex]]. *)
Definition covered (fieldIndex : Z) (values : list string) (p : Z)
    : option string :=
  if (fieldIndex <=? p) && (p <? fieldIndex + len values)
  then values !! Z.to_nat (p - fieldIndex)
  else None.

(** The entry, if any, that slot [p] adds to a filter mapping. *)
Definition slotEntry (p : Z) (name : string) (fieldIndex : Z)
    (values : list string) (selector : gmap string string)
    : gmap string string :=
  match covered fieldIndex values p with
  | Some v => if isEmpty v then selector else <[name := v]> selector
  | None => selector
  end.

(** The model declares the rule type of [r]: the type tag is not empty and
    the section named by its first byte holds an assertion for it. *)
Definition declared (model : gmap string (gmap string Assertion))
    (r : CasbinRule) : Prop :=
  ∃ sec, sliceTo1 (PType r) = Ret sec ∧ is_Some (section model sec !! PType r).

#[global] Instance panic_eq_dec : EqDecision panic.
Proof. solve_decision. Defined.

#[global] Instance outcome_eq_dec {A} `{EqDecision A} : EqDecision (outcome A).
Proof. solve_decision. Defined.

(** The key that a mutation names. *)
Definition mutationKey (mu : Mutation) : Key :=
  match mu with
  | mutUpsert k _ | mutInsert k _ | mutDelete k => k
  end.

(** The lines that SavePolicy writes for a model. *)
Definition savedLines (model : gmap string (gmap string Assertion))
    : list CasbinRule :=
  sectionLines model "p" ++ sectionLines model "g".

(** A key of the adapter's partition: its kind and namespace are the
    configured ones. *)
Definition inPartition (a : adapter) (k : Key) : Prop :=
  datastore.Kind k = Kind (config a)
  ∧ datastore.Namespace k = Namespace (config a).

(** A stored record falls under the pattern of a filtered removal: the
    adapter's query matches it, its type tag is the given one, and every
    slot that the pattern covers with a non-empty value holds that value. *)
Definition matchesPattern (a : adapter) (ptype : string) (fieldIndex : Z)
    (fieldValues : list string) (k : Key) (r : CasbinRule) : Prop :=
  matches (newQuery a) k r = true
  ∧ PType r = ptype
  ∧ ∀ p v, 0 ≤ p ≤ 5 → covered fieldIndex fieldValues p = Some v → v ≠ "" →
           slots r !! Z.to_nat p = Some v.

(** Every key under which the store holds a record is complete. *)
Definition completeKeys (m : gmap Key CasbinRule) : Prop :=
  ∀ k, is_Some (m !! k) → Incomplete k = false.

(** ** The comparison helpers of the adapter's tests

    [flat] and [sameStringSlice] of the test file: a policy read back from
    the store is compared with the expected one as a bag of field values. *)

(** [flat]: every field of every rule appended to one slice. *)
Definition flat (arr2D : list (list string)) : list string :=
  foldl (λ res arr, foldl (λ res e, res ++ [e]) res arr) [] arr2D.

(** [diff[k]] for reading: a missing key reads as 0. *)
Definition mapGet (diff : gmap string Z) (k : string) : Z :=
  default 0 (diff !! k).

(** [diff[_x]++] and [diff[_y]--]. *)
Definition increment (diff : gmap string Z) (_x : string) : gmap string Z :=
  <[_x := int_add (mapGet diff _x) 1]> diff.

Definition decrement (diff : gmap string Z) (_y : string) : gmap string Z :=
  <[_y := int_sub (mapGet diff _y) 1]> diff.

(** The second loop of [sameStringSlice]; [None] is its early
    [return false]. *)
Fixpoint sameStringSlice_cancel (y : list string) (diff : gmap string Z)
    : option (gmap string Z) :=
  match y with
  | [] => Some diff
  | _y :: y' =>
      match diff !! _y with
      | None => None
      | Some _ =>
          let diff := decrement diff _y in
          let diff := if mapGet diff _y =? 0 then delete _y diff else diff in
          sameStringSlice_cancel y' diff
      end
  end.

Definition sameStringSlice (x y : list string) : bool :=
  if negb (len x =? len y) then false
  else
    let diff := foldl increment ∅ x in
    match sameStringSlice_cancel y diff with
    | None => false
    | Some diff => if Z.of_nat (size diff) =? 0 then true else false
    end.

(** The map [diff] holds the counts [c]: a string is a key exactly when
    its count is not zero, and then the map holds the count. *)
Definition holdsCounts (diff : gmap string Z) (c : string → nat) : Prop :=
  ∀ s, diff !! s = if decide (c s = 0%nat) then None else Some (Z.of_nat (c s)).

(** How often [s] occurs in [l]. *)
Definition occurrences (l : list string) (s : string) : nat :=
  count_occ string_dec l s.

(** * Properties *)

Section string_facts.

Lemma append_assoc (a b c : string) : (a +:+ b) +:+ c = a +:+ (b +:+ c).
Proof.
  induction a as [|x a IH]; [reflexivity |].
  change (String x ((a +:+ b) +:+ c) = String x (a +:+ (b +:+ c))).
  by rewrite IH.
Qed.

Lemma isEmpty_true (s : string) : isEmpty s = true ↔ s = "".
Proof. destruct s; simpl; split; congruence. Qed.

Lemma isEmpty_false (s : string) : isEmpty s = false ↔ s ≠ "".
Proof. destruct s; simpl; split; congruence. Qed.

Lemma compare_empty_Gt (s : string) : String.compare s "" = Gt ↔ s ≠ "".
Proof. destruct s; simpl; split; congruence. Qed.

End string_facts.

(** ** The codec *)

(** Case analysis on the trimmed form of [x]: empty or not. *)
Ltac trim_cases x :=
  let t := fresh "t" in
  generalize (TrimSpace x); intros t; destruct t; simpl;
  try (rewrite ?append_assoc; reflexivity).

(** The code's step-by-step concatenation is the comma-joined list of the
    trimmed values up to the first empty one. *)
Lemma CasbinRule_String_joinComma (cr : CasbinRule) :
  CasbinRule_String cr = joinComma (identity_values cr).
Proof.
  destruct cr as [p v0 v1 v2 v3 v4 v5].
  unfold CasbinRule_String, identity_values, slots, appendOrTerminate.
  cbn [PType V0 V1 V2 V3 V4 V5 map untilEmpty].
  trim_cases p. trim_cases v0. trim_cases v1. trim_cases v2.
  trim_cases v3. trim_cases v4. trim_cases v5.
Qed.

(** C4. For every record, the identity string is the comma-joined list of
    the trimmed type tag and slots 0 to 5, cut at the first value whose
    trimmed form is empty, so no later slot takes part; encoding the fields
    ["a"; ""; "c"] gives the same identity as encoding ["a"], namely the
    trimmed type tag followed by ",a". *)
Theorem String_is_identity_spec :
  (∀ cr : CasbinRule, CasbinRule_String cr = identity_spec cr)
  ∧ (∀ ptype : string,
       CasbinRule_String (savePolicyLine ptype ["a"; ""; "c"])
       = CasbinRule_String (savePolicyLine ptype ["a"]))
  ∧ (∀ ptype : string,
       isEmpty (TrimSpace ptype) = false →
       CasbinRule_String (savePolicyLine ptype ["a"; ""; "c"])
       = TrimSpace ptype +:+ ",a")
  ∧ CasbinRule_String (savePolicyLine "p" ["a"; ""; "c"]) = "p,a".
Proof.
  split; [|split; [|split]].
  - intros cr. apply CasbinRule_String_joinComma.
  - intros ptype. unfold CasbinRule_String, appendOrTerminate. simpl.
    reflexivity.
  - intros ptype H. unfold CasbinRule_String, appendOrTerminate. simpl.
    rewrite H. simpl. destruct (TrimSpace ptype); [discriminate | reflexivity].
  - reflexivity.
Qed.

Lemma String_is_identity_spec_witness :
  isEmpty (TrimSpace " p2 ") = false
  ∧ CasbinRule_String (savePolicyLine " p2 " ["a"; ""; "c"]) = "p2,a".
Proof.
  split; [reflexivity |].
  exact (proj1 (proj2 (proj2 String_is_identity_spec)) " p2 " eq_refl).
Defined.





(** Encoding at most six fields puts them, and nothing else, into the
    slots; when none is empty, decoding collects exactly them. *)
Lemma tokens_savePolicyLine (ptype : string) (rule : list string) :
  (length rule ≤ 6)%nat →
  Forall (λ f, f ≠ "") rule →
  loadPolicyLine_tokens (savePolicyLine ptype rule) = rule.
Proof.
  intros Hlen Hne.
  do 7 (destruct rule as [| ? rule];
        [ repeat match goal with
                 | H : Forall _ (?x :: _) |- _ =>
                     let E := fresh "E" in
                     apply Forall_cons in H as [E H];
                     destruct x; [by destruct E |]
                 end;
          reflexivity
        | ]).
  simpl in Hlen. lia.
Qed.

(** C5, as the claim states it, fails for the empty rule type: the record
    is built, but decoding it takes [key[:1]] of the empty type tag, which
    is a run-time failure, whatever the model holds. *)
Lemma decode_encode_empty_type_panics :
  loadPolicyLine (savePolicyLine "" ["alice"; "data1"; "read"])
                 (<["" := <["" := emptyAssertion ""]> ∅]> rbacModel)
  = Panic SliceBoundsOutOfRange.
Proof. reflexivity. Qed.

(** C5, amended. For every non-empty rule type and every list of 0 to 6
    non-empty fields, the encoded record carries the type as its tag and
    decodes to the same field list; loaded into a model that declares the
    rule type under the section named by its first byte, it appends exactly
    that field list to the policy of that rule type. *)
Theorem decode_encode_roundtrip (ptype : string) (rule : list string)
    (model : gmap string (gmap string Assertion)) :
  ptype ≠ "" →
  (length rule ≤ 6)%nat →
  Forall (λ f, f ≠ "") rule →
  PType (savePolicyLine ptype rule) = ptype
  ∧ loadPolicyLine_tokens (savePolicyLine ptype rule) = rule
  ∧ ∃ sec, sliceTo1 ptype = Ret sec
    ∧ ∀ ast, section model sec !! ptype = Some ast →
        loadPolicyLine (savePolicyLine ptype rule) model
        = Ret (<[sec := <[ptype := set_Policy ast (Policy ast ++ [rule])]>
                          (section model sec)]> model).
Proof.
  intros Hp Hlen Hne. split; [reflexivity |].
  pose proof (tokens_savePolicyLine ptype rule Hlen Hne) as Htok.
  split; [exact Htok |].
  destruct ptype as [| b ptype]; [done |].
  exists (String b EmptyString). split; [reflexivity |].
  intros ast Hast. unfold loadPolicyLine.
  change (PType (savePolicyLine (String b ptype) rule)) with (String b ptype).
  cbn [sliceTo1]. rewrite Hast, Htok. reflexivity.
Qed.

Lemma decode_encode_roundtrip_witness :
  loadPolicyLine (savePolicyLine "p" ["alice"; "data1"; "read"]) rbacModel
  = Ret (<["p" := <["p" := set_Policy (emptyAssertion "p")
                             [["alice"; "data1"; "read"]]]>
                    (section rbacModel "p")]> rbacModel).
Proof.
  destruct (decode_encode_roundtrip "p" ["alice"; "data1"; "read"] rbacModel)
    as (_ & _ & sec & Hsec & Hload).
  - discriminate.
  - simpl. lia.
  - repeat constructor; discriminate.
  - injection Hsec as <-. apply (Hload (emptyAssertion "p")). reflexivity.
Defined.

(** ** The filter mapper *)

Section selector.

Variables (fieldIndex : Z) (fieldValues : list string).
Hypothesis fieldIndex_int : is_int fieldIndex.
Hypothesis fieldValues_len : len fieldValues ≤ maxLen.

Lemma int_wrap_id (z : Z) : is_int z → int_wrap z = z.
Proof.
  unfold is_int, int_wrap, int_min, int_max. intros H.
  rewrite Z.mod_small; lia.
Qed.

Lemma len_nonneg : 0 ≤ len fieldValues.
Proof. unfold len. lia. Qed.

(** When the first comparison of a block holds, the sum in the second one
    does not wrap. *)
Lemma condition_exact (p : Z) :
  0 ≤ p ≤ 5 →
  (fieldIndex <=? p) && (p <? int_add fieldIndex (len fieldValues))
  = (fieldIndex <=? p) && (p <? fieldIndex + len fieldValues).
Proof.
  intros Hp. destruct (Z.leb_spec fieldIndex p) as [Hle|]; [| reflexivity].
  unfold int_add. rewrite int_wrap_id; [reflexivity |].
  pose proof len_nonneg.
  unfold is_int, int_min, int_max, maxLen in *. lia.
Qed.

(** Inside a block the index that is read lies within the value list. *)
Lemma read_in_bounds (p : Z) :
  0 ≤ p ≤ 5 →
  (fieldIndex <=? p) && (p <? int_add fieldIndex (len fieldValues)) = true →
  int_sub p fieldIndex = p - fieldIndex
  ∧ 0 ≤ int_sub p fieldIndex < len fieldValues.
Proof.
  intros Hp. rewrite condition_exact by done.
  intros [H1 H2]%andb_true_iff.
  apply Z.leb_le in H1. apply Z.ltb_lt in H2.
  assert (int_sub p fieldIndex = p - fieldIndex) as ->; [| lia].
  unfold int_sub. apply int_wrap_id.
  unfold is_int, int_min, int_max, maxLen in *. lia.
Qed.

Lemma index_in_bounds (i : Z) :
  0 ≤ i < len fieldValues →
  ∃ v, fieldValues !! Z.to_nat i = Some v ∧ index fieldValues i = Ret v.
Proof.
  intros Hi. unfold index.
  destruct (lookup_lt_is_Some_2 fieldValues (Z.to_nat i)) as [v Hv].
  { unfold len in Hi. lia. }
  exists v. split; [done |].
  rewrite Hv.
  destruct (Z.leb_spec 0 i); [| lia].
  destruct (Z.ltb_spec i (len fieldValues)); [done | lia].
Qed.

(** A block of the code adds what the specification's slot entry adds. *)
Lemma selectSlot_slotEntry (p : Z) (name : string)
    (selector : gmap string string) :
  0 ≤ p ≤ 5 →
  selectSlot p name fieldIndex fieldValues selector
  = Ret (slotEntry p name fieldIndex fieldValues selector).
Proof.
  intros Hp. unfold selectSlot, slotEntry, covered.
  pose proof (read_in_bounds p Hp) as Hread.
  rewrite <- (condition_exact p Hp).
  destruct ((fieldIndex <=? p)
            && (p <? int_add fieldIndex (len fieldValues)));
    [| reflexivity].
  destruct (Hread eq_refl) as [Hsub Hbounds].
  destruct (index_in_bounds _ Hbounds) as (v & Hv & Hidx).
  rewrite Hidx. rewrite <- Hsub, Hv.
  destruct (isEmpty v); reflexivity.
Qed.

Lemma selector_slotEntries (ptype : string) :
  RemoveFilteredPolicy_selector ptype fieldIndex fieldValues
  = Ret (slotEntry 5 "v5" fieldIndex fieldValues
          (slotEntry 4 "v4" fieldIndex fieldValues
            (slotEntry 3 "v3" fieldIndex fieldValues
              (slotEntry 2 "v2" fieldIndex fieldValues
                (slotEntry 1 "v1" fieldIndex fieldValues
                  (slotEntry 0 "v0" fieldIndex fieldValues
                    (<["ptype" := ptype]> ∅))))))).
Proof.
  unfold RemoveFilteredPolicy_selector.
  repeat (rewrite selectSlot_slotEntry by lia; cbn [andThen]).
  reflexivity.
Qed.

Lemma lookup_slotEntry_ne (p : Z) (name name' : string)
    (selector : gmap string string) :
  name ≠ name' →
  slotEntry p name fieldIndex fieldValues selector !! name' = selector !! name'.
Proof.
  intros Hne. unfold slotEntry.
  destruct (covered fieldIndex fieldValues p) as [v|]; [| done].
  destruct (isEmpty v); [done |]. by rewrite lookup_insert_ne.
Qed.

Lemma lookup_slotEntry_eq (p : Z) (name v : string)
    (selector : gmap string string) :
  selector !! name = None →
  slotEntry p name fieldIndex fieldValues selector !! name = Some v
  ↔ fieldIndex ≤ p < fieldIndex + len fieldValues
    ∧ fieldValues !! Z.to_nat (p - fieldIndex) = Some v
    ∧ v ≠ "".
Proof.
  intros Hnone. unfold slotEntry, covered.
  destruct (Z.leb_spec fieldIndex p), (Z.ltb_spec p (fieldIndex + len fieldValues));
    cbn [andb]; try (rewrite Hnone; split; [done | lia]).
  destruct (fieldValues !! Z.to_nat (p - fieldIndex)) as [v'|] eqn:Hv.
  - destruct (isEmpty v') eqn:He.
    + apply isEmpty_true in He as ->. rewrite Hnone.
      split; [done |]. intros (_ & [= <-] & Hne). done.
    + apply isEmpty_false in He. rewrite lookup_insert_eq.
      split.
      * intros [= <-]. repeat split; (lia || done).
      * intros (_ & [= <-] & _). done.
  - rewrite Hnone. split; [done |]. intros (_ & [=] & _).
Qed.

Lemma dom_slotEntry (p : Z) (name : string) (selector : gmap string string)
    (X : gset string) :
  name ∈ X → dom selector ⊆ X →
  dom (slotEntry p name fieldIndex fieldValues selector) ⊆ X.
Proof.
  intros Hname Hdom. unfold slotEntry.
  destruct (covered fieldIndex fieldValues p) as [v|]; [| done].
  destruct (isEmpty v); [done |]. rewrite dom_insert.
  apply union_subseteq. split; [by apply singleton_subseteq_l | done].
Qed.

End selector.

(** C6. For every rule type, index and value list, the selector that
    RemoveFilteredPolicy builds maps "ptype" to the rule type and, for each
    slot position p in 0..5, maps the slot's field to a value v exactly when
    fieldIndex <= p < fieldIndex + len(values), values[p - fieldIndex] is v
    and v is not empty; the two mappings of the specification's examples
    come out as it says. *)
Theorem selector_entries :
  (∀ (ruleType : string) (fieldIndex : Z) (values : list string),
     is_int fieldIndex → len values ≤ maxLen →
     ∃ selector,
       RemoveFilteredPolicy_selector ruleType fieldIndex values = Ret selector
       ∧ selector !! "ptype" = Some ruleType
       ∧ ∀ (p : Z) (v : string), 0 ≤ p ≤ 5 →
           selector !! slotName p = Some v
           ↔ fieldIndex ≤ p < fieldIndex + len values
             ∧ values !! Z.to_nat (p - fieldIndex) = Some v
             ∧ v ≠ "")
  ∧ RemoveFilteredPolicy_selector "p" 1 ["data2_admin"]
    = Ret (<["v1" := "data2_admin"]> (<["ptype" := "p"]> ∅))
  ∧ RemoveFilteredPolicy_selector "p" 0 ["domain1"; ""; ""; "read"]
    = Ret (<["v3" := "read"]> (<["v0" := "domain1"]> (<["ptype" := "p"]> ∅))).
Proof.
  split; [| split; reflexivity].
  intros ruleType fieldIndex values Hint Hlen.
  eexists. split; [by apply selector_slotEntries |].
  split.
  - rewrite !lookup_slotEntry_ne by done. apply lookup_insert_eq.
  - intros p v Hp.
    assert (p = 0 ∨ p = 1 ∨ p = 2 ∨ p = 3 ∨ p = 4 ∨ p = 5)
      as [-> | [-> | [-> | [-> | [-> | ->]]]]] by lia;
      cbn [slotName Z.eqb];
      rewrite ?lookup_slotEntry_ne by done;
      apply lookup_slotEntry_eq;
      rewrite ?lookup_slotEntry_ne by done; done.
Qed.

Lemma selector_entries_witness :
  ∃ selector,
    RemoveFilteredPolicy_selector "p" (-1) ["x"; "alice"; ""; "read"] = Ret selector
    ∧ selector !! "ptype" = Some "p"
    ∧ selector !! "v0" = Some "alice"
    ∧ selector !! "v1" = None
    ∧ selector !! "v2" = Some "read".
Proof.
  destruct (proj1 selector_entries "p" (-1) ["x"; "alice"; ""; "read"])
    as (selector & Hsel & Hptype & Hslots).
  - unfold is_int, int_min, int_max. lia.
  - unfold len, maxLen. simpl. lia.
  - exists selector. split; [exact Hsel |]. split; [exact Hptype |].
    split; [| split].
    + apply (Hslots 0 "alice"); [lia |]. unfold len. simpl.
      split; [lia |]. split; [reflexivity | discriminate].
    + destruct (selector !! "v1") as [v|] eqn:Hv; [| reflexivity].
      apply (Hslots 1 v) in Hv as (_ & Hv & Hne); [| lia].
      simpl in Hv. injection Hv as <-. by destruct Hne.
    + apply (Hslots 2 "read"); [lia |]. unfold len. simpl.
      split; [lia |]. split; [reflexivity | discriminate].
Defined.

(** C7. For every index, negative ones included, and every value list,
    however far fieldIndex + len(values) reaches beyond 6, building the
    selector panics nowhere: each index p - fieldIndex that a block reads
    lies inside the value list, and the selector has no field other than
    "ptype" and the six slots. *)
Theorem selector_never_panics (ptype : string) (fieldIndex : Z)
    (fieldValues : list string) :
  is_int fieldIndex → len fieldValues ≤ maxLen →
  (∀ p, 0 ≤ p ≤ 5 →
     (fieldIndex <=? p) && (p <? int_add fieldIndex (len fieldValues)) = true →
     0 ≤ int_sub p fieldIndex < len fieldValues
     ∧ ∃ v, index fieldValues (int_sub p fieldIndex) = Ret v)
  ∧ ∃ selector,
      RemoveFilteredPolicy_selector ptype fieldIndex fieldValues = Ret selector
      ∧ dom selector ⊆ {["ptype"; "v0"; "v1"; "v2"; "v3"; "v4"; "v5"]}.
Proof.
  intros Hint Hlen. split.
  - intros p Hp Hcond.
    destruct (read_in_bounds fieldIndex fieldValues Hint Hlen p Hp Hcond)
      as [_ Hb].
    split; [exact Hb |].
    destruct (index_in_bounds fieldValues _ Hb) as (v & _ & Hv). by exists v.
  - eexists. split; [by apply selector_slotEntries |].
    repeat (apply dom_slotEntry; [set_unfold; tauto |]).
    rewrite dom_insert, dom_empty. set_unfold. tauto.
Qed.

Lemma selector_never_panics_witness :
  ∃ selector,
    RemoveFilteredPolicy_selector "p" (-3) (replicate 12 "x") = Ret selector
    ∧ dom selector ⊆ {["ptype"; "v0"; "v1"; "v2"; "v3"; "v4"; "v5"]}.
Proof.
  apply (selector_never_panics "p" (-3) (replicate 12 "x")).
  - unfold is_int, int_min, int_max. lia.
  - unfold len, maxLen. simpl. lia.
Defined.

(** ** Computations against the store *)

Section store_facts.

Lemma bind_eq {A B} (c : M A) (k : A → M B) (w : World) :
  bind c k w = k (c w).1 (c w).2.
Proof. unfold bind. by destruct (c w). Qed.

Lemma rpc_eq (w : World) :
  rpc w = (default None (head (faults w)), consume w).
Proof. unfold rpc, consume. by destruct w as [m [| e fs]]. Qed.

Lemma rpc_healthy (w : World) : healthy w → rpc w = (None, consume w).
Proof.
  intros H. rewrite rpc_eq. f_equal.
  unfold healthy in H. destruct (faults w) as [| e fs]; [done |].
  by apply Forall_cons in H as [-> _].
Qed.

Lemma healthy_consume (w : World) : healthy w → healthy (consume w).
Proof.
  unfold healthy, consume. simpl.
  destruct (faults w) as [| e fs]; [done |]. by intros [_ H]%Forall_cons.
Qed.

Lemma runQuery_matches (q : Query) (m : gmap Key CasbinRule) :
  Forall (λ kr, matches q kr.1 kr.2 = true) (runQuery q m).
Proof.
  apply Forall_forall. intros kr Hin. unfold runQuery in Hin.
  apply list_elem_of_In, filter_In in Hin. by destruct Hin.
Qed.

(** Every rule that the query of [newQuery] lets through has a non-empty
    type tag. *)
Lemma newQuery_ptype (a : adapter) (k : Key) (r : CasbinRule) :
  matches (newQuery a) k r = true → PType r ≠ "".
Proof.
  unfold matches, newQuery. cbn.
  intros H. repeat (apply andb_true_iff in H as [H ?]).
  unfold satisfies, compareOp in *. cbn in *.
  destruct (PType r); [discriminate | discriminate].
Qed.

Lemma GetAll_rules (q : Query) (w : World) :
  Forall (λ r, ∃ k, matches q k r = true) (GetAll q w).1.1.2.
Proof.
  unfold GetAll. rewrite bind_eq, rpc_eq. cbn [fst snd].
  destruct (default None (head (faults w))); [by constructor |].
  unfold getEntities, ret, bind. cbn [fst snd].
  destruct (q_keysOnly q); [by constructor |].
  apply Forall_fmap. eapply Forall_impl; [apply runQuery_matches |].
  intros [k r] H. by exists k.
Qed.

Lemma GetAll_entities (q : Query) (w : World) :
  entities (GetAll q w).2 = entities w.
Proof.
  unfold GetAll. rewrite bind_eq, rpc_eq.
  by destruct (default None (head (faults w))).
Qed.

End store_facts.

(** ** Loading *)

Lemma loadPolicyLine_slice (line : CasbinRule)
    (model : gmap string (gmap string Assertion)) :
  loadPolicyLine line model = Panic SliceBoundsOutOfRange ↔ PType line = "".
Proof.
  unfold loadPolicyLine. destruct (PType line) as [| b s]; [done |].
  cbn [sliceTo1].
  destruct (section model (String b "") !! String b s); split; done.
Qed.

Lemma loadPolicyLines_slice (rules : list CasbinRule)
    (model : gmap string (gmap string Assertion)) :
  Forall (λ r, PType r ≠ "") rules →
  loadPolicyLines rules model ≠ Panic SliceBoundsOutOfRange.
Proof.
  intros H. revert model.
  induction H as [| r rules Hr _ IH]; intros model; [done |].
  cbn [loadPolicyLines].
  destruct (loadPolicyLine r model) as [model' | e] eqn:E; [apply IH |].
  intros [= ->]. by apply loadPolicyLine_slice in E.
Qed.

Lemma fetched_ptype (a : adapter) (w : World) :
  Forall (λ r, PType r ≠ "") (fetched a w).
Proof.
  eapply Forall_impl; [apply GetAll_rules |].
  intros r [k H]. by apply newQuery_ptype in H.
Qed.

(** C10. Decoding takes the first byte of the type tag, which fails exactly
    when the tag is empty; every rule that the query of LoadPolicy fetches
    passed the filter ptype > "" and so has a non-empty tag, and LoadPolicy
    never fails at that step. *)
Theorem LoadPolicy_type_tag_precondition :
  (∀ line model,
     loadPolicyLine line model = Panic SliceBoundsOutOfRange ↔ PType line = "")
  ∧ (∀ a, mkFilter "ptype" opGreater "" ∈ q_filter (newQuery a))
  ∧ (∀ a w, Forall (λ r, PType r ≠ "") (fetched a w))
  ∧ (∀ a model w, (LoadPolicy a model w).1 ≠ Panic SliceBoundsOutOfRange).
Proof.
  split; [apply loadPolicyLine_slice |].
  split; [intros a; cbn; set_solver |].
  split; [apply fetched_ptype |].
  intros a model w. unfold LoadPolicy. rewrite bind_eq.
  pose proof (fetched_ptype a w) as H. unfold fetched in H.
  destruct (GetAll (newQuery a) w) as [[[keys rules] err] w']. cbn in *.
  destruct err; [done |].
  pose proof (loadPolicyLines_slice rules model H).
  destruct (loadPolicyLines rules model); [done |]. cbn. congruence.
Qed.

(** ** Filtered removal *)

Lemma Commit_nil_healthy (w : World) :
  healthy w → Commit [] w = (None, consume w).
Proof.
  intros H. unfold Commit. rewrite bind_eq, rpc_healthy by done. reflexivity.
Qed.

(** C8. When the store answers the fetch of RemoveFilteredPolicy with its
    not-found signal, the call returns success and nothing is deleted; and
    when no stored record matches the narrowed query, on a store that fails
    no call, it returns success and the record set is unchanged. *)
Theorem RemoveFilteredPolicy_no_match (a : adapter) (sec ptype : string)
    (fieldIndex : Z) (fieldValues : list string) (w : World) :
  is_int fieldIndex → len fieldValues ≤ maxLen →
  (head (faults w) = Some (Some ErrNoSuchEntity) →
     RemoveFilteredPolicy a sec ptype fieldIndex fieldValues w
     = (Ret None, consume w))
  ∧ (healthy w →
     (∀ selector,
        RemoveFilteredPolicy_selector ptype fieldIndex fieldValues = Ret selector →
        runQuery (RemoveFilteredPolicy_query a selector) (entities w) = []) →
     (RemoveFilteredPolicy a sec ptype fieldIndex fieldValues w).1 = Ret None
     ∧ entities (RemoveFilteredPolicy a sec ptype fieldIndex fieldValues w).2
       = entities w).
Proof.
  intros Hint Hlen. unfold RemoveFilteredPolicy.
  rewrite (selector_slotEntries fieldIndex fieldValues Hint Hlen ptype).
  set (selector := slotEntry 5 _ _ _ _).
  split.
  - intros Hhead. unfold GetAll. rewrite !bind_eq, rpc_eq, Hhead. reflexivity.
  - intros Hw Hnone. specialize (Hnone selector eq_refl).
    unfold GetAll. rewrite !bind_eq, rpc_healthy by done.
    unfold getEntities. cbn [fst snd ret bind]. cbn [consume entities].
    rewrite Hnone. cbn [fmap list_fmap].
    unfold DeleteMulti, deleteMutations. cbn [existsb map].
    rewrite bind_eq, Commit_nil_healthy by by apply healthy_consume.
    split; reflexivity.
Qed.

Lemma RemoveFilteredPolicy_no_match_witness :
  let a := NewAdapter in
  let w := (AddPolicy a "p" "p" ["alice"; "data1"; "read"]
              {| entities := ∅; faults := [] |}).2 in
  (RemoveFilteredPolicy a "p" "p" 1 ["data2"] w).1 = Ret None
  ∧ entities (RemoveFilteredPolicy a "p" "p" 1 ["data2"] w).2 = entities w.
Proof.
  intros a w.
  apply (RemoveFilteredPolicy_no_match a "p" "p" 1 ["data2"] w).
  - unfold is_int, int_min, int_max. lia.
  - unfold len, maxLen. simpl. lia.
  - constructor.
  - intros selector Hsel. vm_compute in Hsel. injection Hsel as <-.
    vm_compute. reflexivity.
Defined.

(** ** Saving *)

Section transaction_facts.

Lemma putMutation_inr (key : Key) (line : CasbinRule) (mu : Mutation) :
  putMutation key line = inr mu → mu = putOf key line.
Proof.
  unfold putMutation, putOf. destruct (negb (valid key)); [done |].
  destruct (Incomplete key); congruence.
Qed.

Lemma deleteMutations_inr (keys : list Key) (mus : list Mutation) :
  deleteMutations keys = inr mus → mus = map mutDelete keys.
Proof.
  unfold deleteMutations. destruct (existsb Incomplete keys); congruence.
Qed.

(** A call on the transaction leaves the stored entities alone, and when it
    succeeds the buffer has grown by the mutation of that call. *)
Lemma Transaction_Put_spec (tx : Transaction) (key : Key) (line : CasbinRule)
    (w : World) :
  entities (Transaction_Put tx key line w).2 = entities w
  ∧ ((Transaction_Put tx key line w).1.1 = None →
     mutations (Transaction_Put tx key line w).1.2
     = mutations tx ++ [putOf key line]).
Proof.
  unfold Transaction_Put.
  destruct (putMutation key line) as [err | mu] eqn:E; [done |].
  apply putMutation_inr in E as ->.
  rewrite bind_eq, rpc_eq.
  by destruct (default None (head (faults w))).
Qed.

Lemma Transaction_DeleteMulti_spec (tx : Transaction) (keys : list Key)
    (w : World) :
  entities (Transaction_DeleteMulti tx keys w).2 = entities w
  ∧ ((Transaction_DeleteMulti tx keys w).1.1 = None →
     mutations (Transaction_DeleteMulti tx keys w).1.2
     = mutations tx ++ map mutDelete keys).
Proof.
  unfold Transaction_DeleteMulti.
  destruct (deleteMutations keys) as [err | mus] eqn:E; [done |].
  apply deleteMutations_inr in E as ->.
  rewrite bind_eq, rpc_eq.
  by destruct (default None (head (faults w))).
Qed.

Lemma putLines_spec (a : adapter) (ancestor : Key) (lines : list CasbinRule)
    (tx : Transaction) (w : World) :
  entities (putLines a ancestor lines tx w).2 = entities w
  ∧ ((putLines a ancestor lines tx w).1.1 = None →
     mutations (putLines a ancestor lines tx w).1.2
     = mutations tx
       ++ map (λ line, putOf (SavePolicy_key a ancestor line) line) lines).
Proof.
  revert tx w. induction lines as [| line lines IH]; intros tx w.
  - cbn. by rewrite app_nil_r.
  - cbn [putLines]. rewrite bind_eq.
    destruct (Transaction_Put_spec tx (SavePolicy_key a ancestor line) line w)
      as [Hent Hmut].
    destruct (Transaction_Put tx (SavePolicy_key a ancestor line) line w)
      as [[err tx'] w'].
    cbn [fst snd] in *.
    destruct err as [e |]; [done |].
    destruct (IH tx' w') as [Hent' Hmut'].
    split; [congruence |].
    intros Hok. rewrite (Hmut' Hok), (Hmut eq_refl).
    cbn [map]. by rewrite <- app_assoc.
Qed.

Variable f : Transaction → M (option error * Transaction).
Variable mus : list Mutation.

(** The function run inside the transaction reaches the stored entities
    only through the transaction, and buffers [mus] when it succeeds. *)
Hypothesis f_entities : ∀ tx w, entities (f tx w).2 = entities w.
Hypothesis f_mutations :
  ∀ w, (f {| mutations := [] |} w).1.1 = None →
       mutations (f {| mutations := [] |} w).1.2 = mus.

Lemma Commit_spec (l : list Mutation) (w : World) :
  ((Commit l w).1 = None ∧
   entities (Commit l w).2 = applyMutations (entities w) l)
  ∨ ((Commit l w).1 ≠ None ∧ entities (Commit l w).2 = entities w).
Proof using Type.
  unfold Commit. rewrite bind_eq, rpc_eq.
  destruct (default None (head (faults w))); [by right | by left].
Qed.

(** A transaction takes effect as a whole or not at all. *)
Lemma runAttempts_atomic (attempts : nat) (w : World) :
  ((runAttempts attempts f w).1 = None ∧
   entities (runAttempts attempts f w).2 = applyMutations (entities w) mus)
  ∨ ((runAttempts attempts f w).1 ≠ None ∧
     entities (runAttempts attempts f w).2 = entities w).
Proof.
  revert w. induction attempts as [| n IH]; intros w; [by right |].
  cbn [runAttempts]. rewrite bind_eq, rpc_eq.
  destruct (default None (head (faults w))); [by right |].
  cbn [fst snd]. rewrite bind_eq.
  pose proof (f_entities {| mutations := [] |} (consume w)) as Hent.
  pose proof (f_mutations (consume w)) as Hmut.
  destruct (f {| mutations := [] |} (consume w)) as [[ferr tx] w1].
  cbn [fst snd] in *. change (entities (consume w)) with (entities w) in Hent.
  destruct ferr as [e |].
  - right. rewrite bind_eq, rpc_eq. cbn. split; [done | exact Hent].
  - rewrite (Hmut eq_refl). rewrite bind_eq.
    destruct (Commit_spec mus w1) as [[Hc He] | [Hc He]].
    + rewrite Hc. left. split; [done |].
      change (entities (Commit mus w1).2 = applyMutations (entities w) mus).
      by rewrite He, Hent.
    + destruct (Commit mus w1) as [c w2]. cbn [fst snd] in *.
      assert (entities w2 = entities w) as Hw2 by congruence.
      destruct c as [[] |]; try done;
        try (right; split; [done | exact Hw2]).
      destruct (IH w2) as [[H1 H2] | [H1 H2]]; [left | right];
        (split; [exact H1 | by rewrite H2, Hw2]).
Qed.

End transaction_facts.

Lemma GetAll_eq (q : Query) (w : World) :
  GetAll q w
  = match default None (head (faults w)) with
    | Some err => (([], [], Some err), consume w)
    | None =>
        (((runQuery q (entities w)).*1,
          if q_keysOnly q then [] else (runQuery q (entities w)).*2,
          None), consume w)
    end.
Proof.
  unfold GetAll. rewrite bind_eq, rpc_eq.
  by destruct (default None (head (faults w))).
Qed.

(** C3. SavePolicy sends its deletes and puts through one transaction: when
    the keys-only fetch fails, it returns that error after that single call,
    with nothing changed; whenever it returns an error, the record set is
    the one before the call; and when it returns success, all deletes and
    all puts have been applied together. *)
Theorem SavePolicy_atomic (a : adapter)
    (model : gmap string (gmap string Assertion)) (w : World) :
  (∀ e, head (faults w) = Some (Some e) →
     SavePolicy a model w = (Some e, consume w))
  ∧ ((SavePolicy a model w).1 ≠ None →
     entities (SavePolicy a model w).2 = entities w)
  ∧ ((SavePolicy a model w).1 = None →
     entities (SavePolicy a model w).2
     = applyMutations (entities w) (saveMutations a model (entities w))).
Proof.
  unfold SavePolicy. rewrite bind_eq, GetAll_eq.
  destruct (default None (head (faults w))) as [e0 |] eqn:Hhead.
  - cbn [fst snd]. split; [| split]; try done.
    intros e He. rewrite He in Hhead. by injection Hhead as ->.
  - cbn [fst snd]. split.
    { intros e He. rewrite He in Hhead. done. }
    set (keys := (runQuery (Query_KeysOnly (newQuery a)) (entities w)).*1).
    set (lines := sectionLines model "p" ++ sectionLines model "g").
    set (f := λ tx : Transaction, bind (Transaction_DeleteMulti tx keys) _).
    destruct (runAttempts_atomic f (saveMutations a model (entities w))) with
      (attempts := maxAttempts) (w := consume w) as [[H1 H2] | [H1 H2]].
    + intros tx w0. unfold f. rewrite bind_eq.
      destruct (Transaction_DeleteMulti_spec tx keys w0) as [Hent _].
      destruct (Transaction_DeleteMulti tx keys w0) as [[err tx'] w1].
      cbn [fst snd] in *. destruct err; [done |].
      destruct (putLines_spec a (pseudoRootKey a) lines tx' w1) as [Hent' _].
      congruence.
    + intros w0. unfold f. rewrite bind_eq.
      destruct (Transaction_DeleteMulti_spec {| mutations := [] |} keys w0)
        as [_ Hmut].
      destruct (Transaction_DeleteMulti {| mutations := [] |} keys w0)
        as [[err tx'] w1].
      cbn [fst snd] in *. destruct err; [done |].
      destruct (putLines_spec a (pseudoRootKey a) lines tx' w1) as [_ Hmut'].
      intros Hok. rewrite (Hmut' Hok), (Hmut eq_refl). reflexivity.
    + split; [intros Hne; by destruct Hne |]. intros _. exact H2.
    + split; [intros _; exact H2 | intros Hok; by destruct H1].
Qed.

Lemma SavePolicy_atomic_witness :
  let a := NewAdapter in
  let model :=
    <["p" := <["p" := set_Policy (emptyAssertion "p")
                        [["alice"; "data1"; "read"]; ["bob"; "data2"; "write"]]]>
               ∅]> rbacModel in
  let w := {| entities :=
                entities (AddPolicy a "p" "p" ["carol"; "data3"; "read"]
                            {| entities := ∅; faults := [] |}).2;
              faults := [None; None; None; None; Some (ErrOther "deadline")] |} in
  (SavePolicy a model w).1 = Some (ErrOther "deadline")
  ∧ entities (SavePolicy a model w).2 = entities w.
Proof.
  intros a model w. split; [vm_compute; reflexivity |].
  apply (SavePolicy_atomic a model w). vm_compute. discriminate.
Defined.

(** ** Keys and single-record updates *)

Lemma fieldAt_lookup (rule : list string) (i : nat) :
  fieldAt rule i = default "" (rule !! i).
Proof.
  unfold fieldAt. destruct (Z.gtb_spec (Z.of_nat (length rule)) (Z.of_nat i));
    [done |].
  rewrite lookup_ge_None_2; [done | lia].
Qed.

Lemma TrimSpace_fieldAt (rule1 rule2 : list string) (i : nat) :
  TrimSpace <$> rule1 = TrimSpace <$> rule2 →
  TrimSpace (fieldAt rule1 i) = TrimSpace (fieldAt rule2 i).
Proof.
  intros H. rewrite !fieldAt_lookup.
  apply (f_equal (λ l, l !! i)) in H. rewrite !list_lookup_fmap in H.
  destruct (rule1 !! i), (rule2 !! i); simplify_eq/=; done.
Qed.

Lemma identity_values_trimmed_fields (ptype : string) (rule1 rule2 : list string) :
  TrimSpace <$> rule1 = TrimSpace <$> rule2 →
  identity_values (savePolicyLine ptype rule1)
  = identity_values (savePolicyLine ptype rule2).
Proof.
  intros H. unfold identity_values, slots, savePolicyLine.
  cbn [PType V0 V1 V2 V3 V4 V5 map].
  by rewrite !(TrimSpace_fieldAt rule1 rule2).
Qed.

(** A type tag that is not blank gives a non-empty identity. *)
Lemma String_not_empty (cr : CasbinRule) :
  isEmpty (TrimSpace (PType cr)) = false →
  isEmpty (CasbinRule_String cr) = false.
Proof.
  intros H. rewrite CasbinRule_String_joinComma.
  unfold identity_values. cbn [map untilEmpty]. rewrite H.
  destruct (TrimSpace (PType cr)) as [| b t]; [done |].
  cbn [joinComma]. by destruct (untilEmpty _).
Qed.

(** The constructor leaves no adapter with an empty kind. *)
Lemma NewAdapterWithConfig_Kind (cfg : Config) :
  isEmpty (Kind (config (NewAdapterWithConfig cfg))) = false.
Proof.
  unfold NewAdapterWithConfig. cbn [config Kind].
  destruct (isEmpty (TrimSpace (Kind cfg))) eqn:E; [done |].
  by destruct (Kind cfg).
Qed.

Lemma eqb_refl (s : string) : String.eqb s s = true.
Proof. by apply String.eqb_eq. Qed.

Lemma AddPolicy_key_valid (a : adapter) (line : CasbinRule) :
  isEmpty (Kind (config a)) = false → valid (AddPolicy_key a line) = true.
Proof.
  intros H. unfold AddPolicy_key, pseudoRootKey. cbn.
  rewrite H, eqb_refl. by rewrite andb_false_r.
Qed.

(** On a store that fails no call, AddPolicy with a type tag that is not
    blank writes the line under its key. *)
Lemma AddPolicy_healthy (cfg : Config) (sec ptype : string)
    (rule : list string) (w : World) :
  isEmpty (TrimSpace ptype) = false →
  healthy w →
  AddPolicy (NewAdapterWithConfig cfg) sec ptype rule w
  = (None,
     {| entities :=
          <[AddPolicy_key (NewAdapterWithConfig cfg) (savePolicyLine ptype rule)
            := savePolicyLine ptype rule]> (entities w);
        faults := tail (faults w) |}).
Proof.
  intros Hp Hw.
  set (a := NewAdapterWithConfig cfg). set (line := savePolicyLine ptype rule).
  unfold AddPolicy, Put, putMutation. fold line.
  rewrite (AddPolicy_key_valid a line (NewAdapterWithConfig_Kind cfg)).
  assert (Incomplete (AddPolicy_key a line) = false) as ->.
  { unfold Incomplete, AddPolicy_key. cbn.
    by rewrite (String_not_empty line Hp). }
  cbn [negb]. unfold Commit. rewrite bind_eq, rpc_healthy by done.
  reflexivity.
Qed.

(** C9, as the claim states it, fails for a blank rule type: the identity
    is empty, a key with an empty name is incomplete, and the store inserts
    an entity under an incomplete key with an identifier of its own; the
    second AddPolicy leaves the record of the first in place. *)
Lemma AddPolicy_blank_type_keeps_both :
  let a := NewAdapter in
  let w1 := (AddPolicy a "p" "" ["alice "] {| entities := ∅; faults := [] |}).2 in
  let w2 := (AddPolicy a "p" "" ["alice"] w1).2 in
  let stored (id : Z) :=
    {| datastore.Kind := "casbin"; ID := id; Name := "";
       Parent := Some (pseudoRootKey a); datastore.Namespace := "" |} in
  TrimSpace <$> ["alice "] = TrimSpace <$> ["alice"]
  ∧ AddPolicy_key a (savePolicyLine "" ["alice "])
    = AddPolicy_key a (savePolicyLine "" ["alice"])
  ∧ entities w2 !! stored 1 = Some (savePolicyLine "" ["alice "])
  ∧ entities w2 !! stored 2 = Some (savePolicyLine "" ["alice"])
  ∧ entities w2 ≠ <[AddPolicy_key a (savePolicyLine "" ["alice"])
                    := savePolicyLine "" ["alice"]]> ∅.
Proof.
  intros a w1 w2 stored.
  split; [reflexivity |]. split; [reflexivity |].
  split; [vm_compute; reflexivity |]. split; [vm_compute; reflexivity |].
  intros H. apply (f_equal (λ m, m !! stored 1)) in H.
  vm_compute in H. discriminate.
Qed.

(** C9, amended. For every rule type and every pair of field lists that
    are equal after trimming each field, the two encoded records have the
    same identity string and the same storage key, while each record keeps
    its fields untrimmed in its slots; when the rule type is not blank, on a
    store that fails no call, AddPolicy of the first list stores its record
    under that key and AddPolicy of the second replaces it. *)
Theorem identity_invariant_under_trimming (cfg : Config) (sec ptype : string)
    (rule1 rule2 : list string) :
  TrimSpace <$> rule1 = TrimSpace <$> rule2 →
  let a := NewAdapterWithConfig cfg in
  let line1 := savePolicyLine ptype rule1 in
  let line2 := savePolicyLine ptype rule2 in
  CasbinRule_String line1 = CasbinRule_String line2
  ∧ AddPolicy_key a line1 = AddPolicy_key a line2
  ∧ (∀ (i : nat) (v : string),
       (i < 6)%nat → rule1 !! i = Some v → slots line1 !! i = Some v)
  ∧ (isEmpty (TrimSpace ptype) = false →
     ∀ w, healthy w →
       let w1 := (AddPolicy a sec ptype rule1 w).2 in
       let w2 := (AddPolicy a sec ptype rule2 w1).2 in
       (AddPolicy a sec ptype rule1 w).1 = None
       ∧ entities w1 !! AddPolicy_key a line1 = Some line1
       ∧ (AddPolicy a sec ptype rule2 w1).1 = None
       ∧ entities w2 = <[AddPolicy_key a line2 := line2]> (entities w)).
Proof.
  intros Htrim a line1 line2.
  assert (CasbinRule_String line1 = CasbinRule_String line2) as Hid.
  { rewrite !CasbinRule_String_joinComma. unfold line1, line2.
    by rewrite (identity_values_trimmed_fields ptype rule1 rule2). }
  assert (AddPolicy_key a line1 = AddPolicy_key a line2) as Hkey.
  { unfold AddPolicy_key. by rewrite Hid. }
  split; [exact Hid |]. split; [exact Hkey |]. split.
  - intros i v Hi Hv. unfold line1, slots, savePolicyLine.
    cbn [V0 V1 V2 V3 V4 V5]. rewrite !fieldAt_lookup.
    do 6 (destruct i as [| i]; [by rewrite Hv |]). lia.
  - intros Hp w Hw w1 w2. unfold w2, w1, a.
    rewrite (AddPolicy_healthy cfg sec ptype rule1 w Hp Hw). cbn [fst snd].
    rewrite (AddPolicy_healthy cfg sec ptype rule2 _ Hp).
    2: { unfold healthy in *. cbn. destruct (faults w); [done |].
         by apply Forall_cons in Hw as [_ Hw]. }
    cbn [fst snd entities]. fold a line1 line2.
    split; [done |]. split; [apply lookup_insert_eq |]. split; [done |].
    rewrite Hkey. apply insert_insert_eq.
Qed.

Lemma identity_invariant_under_trimming_witness :
  let a := NewAdapter in
  let w1 := (AddPolicy a "p" "p" [" alice"; "data1 "]
               {| entities := ∅; faults := [] |}).2 in
  let w2 := (AddPolicy a "p" "p" ["alice"; "data1"] w1).2 in
  CasbinRule_String (savePolicyLine "p" [" alice"; "data1 "]) = "p,alice,data1"
  ∧ entities w2
    = <[AddPolicy_key a (savePolicyLine "p" ["alice"; "data1"])
        := savePolicyLine "p" ["alice"; "data1"]]> ∅.
Proof.
  intros a w1 w2. split; [reflexivity |].
  destruct (identity_invariant_under_trimming
              {| Kind := ""; Namespace := ""; Debug := false;
                 LoadSaveFilterDeadline := 0; AddRemoveDeadline := 0 |}
              "p" "p" [" alice"; "data1 "] ["alice"; "data1"] eq_refl)
    as (_ & _ & _ & H).
  destruct (H eq_refl {| entities := ∅; faults := [] |}) as (_ & _ & _ & H2).
  - constructor.
  - exact H2.
Defined.


Example TrimSpace_ex1 : TrimSpace "  alice	 " = "alice".
Proof. reflexivity. Qed.
Example String_ex1 :
  CasbinRule_String (savePolicyLine "p" ["alice"; " data1 "; "read"]) = "p,alice,data1,read".
Proof. reflexivity. Qed.
Example tokens_ex1 :
  loadPolicyLine_tokens (savePolicyLine "p" ["alice"; " data1 "; ""; "x"]) = ["alice"; " data1 "].
Proof. reflexivity. Qed.

(** * Further properties of the adapter *)

(** ** The constructor *)

(** X1. The constructor always leaves a kind that is not blank and
    deadlines that are not zero; it keeps namespace and debug flag, keeps a
    kind that is not blank exactly as given (untrimmed), and applying it to
    its own result changes nothing. *)
Theorem NewAdapterWithConfig_normalises (cfg : Config) :
  let c := config (NewAdapterWithConfig cfg) in
  isEmpty (TrimSpace (Kind c)) = false
  ∧ LoadSaveFilterDeadline c ≠ 0
  ∧ AddRemoveDeadline c ≠ 0
  ∧ Namespace c = Namespace cfg
  ∧ Debug c = Debug cfg
  ∧ (isEmpty (TrimSpace (Kind cfg)) = false → Kind c = Kind cfg)
  ∧ (isEmpty (TrimSpace (Kind cfg)) = true → Kind c = casbinKind)
  ∧ NewAdapterWithConfig c = NewAdapterWithConfig cfg.
Proof.
  destruct cfg as [kind ns dbg ls ar].
  unfold NewAdapterWithConfig. cbn [config Kind Namespace Debug
    LoadSaveFilterDeadline AddRemoveDeadline].
  destruct (isEmpty (TrimSpace kind)) eqn:Ek;
    destruct (Z.eqb_spec ls 0) as [-> | Hls];
    destruct (Z.eqb_spec ar 0) as [-> | Har];
    cbn [Z.eqb]; rewrite ?Ek;
    repeat match goal with
           | |- context [?x =? 0] =>
               destruct (Z.eqb_spec x 0); [done || lia |]
           end;
    repeat split; try done; try (cbv; discriminate).
Qed.

Lemma NewAdapterWithConfig_normalises_witness :
  Kind (config (NewAdapterWithConfig testConfig)) = "casbin_test"
  ∧ Kind (config (NewAdapterWithConfig
                    {| Kind := "   "; Namespace := "n"; Debug := true;
                       LoadSaveFilterDeadline := 5; AddRemoveDeadline := 0 |}))
    = "casbin".
Proof.
  split.
  - apply (NewAdapterWithConfig_normalises testConfig). reflexivity.
  - apply (NewAdapterWithConfig_normalises
             {| Kind := "   "; Namespace := "n"; Debug := true;
                LoadSaveFilterDeadline := 5; AddRemoveDeadline := 0 |}).
    reflexivity.
Defined.

(** ** Encoding and decoding *)

Lemma tokens_untilEmpty (cr : CasbinRule) :
  loadPolicyLine_tokens cr = untilEmpty (slots cr).
Proof.
  destruct cr as [p v0 v1 v2 v3 v4 v5].
  unfold loadPolicyLine_tokens, slots. cbn [V0 V1 V2 V3 V4 V5 untilEmpty].
  destruct v0; [done |]. destruct v1; [done |]. destruct v2; [done |].
  destruct v3; [done |]. destruct v4; [done |]. by destruct v5.
Qed.

Lemma slots_savePolicyLine (ptype : string) (rule : list string) :
  slots (savePolicyLine ptype rule) = take 6 (rule ++ replicate 6 "").
Proof.
  unfold slots, savePolicyLine. cbn [V0 V1 V2 V3 V4 V5].
  rewrite !fieldAt_lookup.
  do 6 (destruct rule as [| ? rule]; [reflexivity |]). reflexivity.
Qed.

Lemma CasbinRule_eq_slots (cr1 cr2 : CasbinRule) :
  PType cr1 = PType cr2 → slots cr1 = slots cr2 → cr1 = cr2.
Proof.
  destruct cr1, cr2. unfold slots. cbn. intros -> [=]. by subst.
Qed.

(** X2. Encoding drops every field after the sixth without an error, and
    trailing empty fields leave no trace: the record of a rule is the record
    of its first six fields, and of the rule with empty fields appended. *)
Theorem savePolicyLine_truncates_and_pads (ptype : string) (rule : list string)
    (n : nat) :
  savePolicyLine ptype rule = savePolicyLine ptype (take 6 rule)
  ∧ savePolicyLine ptype (rule ++ replicate n "") = savePolicyLine ptype rule.
Proof.
  split; apply CasbinRule_eq_slots; try reflexivity;
    rewrite !slots_savePolicyLine.
  - do 6 (destruct rule as [| ? rule]; [reflexivity |]). reflexivity.
  - do 6 (destruct rule as [| ? rule];
          [do 6 (destruct n as [| n]; [reflexivity |]); reflexivity |]).
    reflexivity.
Qed.

(** X3. For every rule, decoding its encoding gives the fields of the rule
    up to the first empty one, among the first six: later fields cannot be
    recovered. *)
Theorem decode_encode_prefix (ptype : string) (rule : list string) :
  loadPolicyLine_tokens (savePolicyLine ptype rule) = untilEmpty (take 6 rule).
Proof.
  rewrite tokens_untilEmpty, slots_savePolicyLine.
  do 6 (destruct rule as [| ? rule]; [reflexivity |]).
  cbn [app take untilEmpty]. reflexivity.
Qed.

(** Case analysis on a slot: empty, or not empty with its trimmed form
    empty or not. *)
Ltac slot_case v :=
  let b := fresh "b" in
  let s := fresh "s" in
  destruct v as [| b s]; cbn -[TrimSpace];
  [ reflexivity
  | destruct (isEmpty (TrimSpace (String b s))); [reflexivity | f_equal] ].

(** X4. Encoding what was decoded from a record gives a record with the
    same identity, hence the same storage key: loading a stored record and
    saving it again writes it back under the key it was read from. *)
Theorem encode_decode_keeps_identity (cr : CasbinRule) :
  CasbinRule_String (savePolicyLine (PType cr) (loadPolicyLine_tokens cr))
  = CasbinRule_String cr.
Proof.
  rewrite !CasbinRule_String_joinComma. f_equal.
  unfold identity_values. cbn [PType savePolicyLine map untilEmpty].
  destruct (isEmpty (TrimSpace (PType cr))); [reflexivity |]. f_equal.
  rewrite slots_savePolicyLine, tokens_untilEmpty.
  destruct cr as [p v0 v1 v2 v3 v4 v5]. unfold slots.
  cbn [V0 V1 V2 V3 V4 V5].
  slot_case v0; slot_case v1; slot_case v2; slot_case v3; slot_case v4;
    slot_case v5; reflexivity.
Qed.

(** ** Loading into the model *)

Lemma section_insert (model : gmap string (gmap string Assertion))
    (sec sec' : string) (am : gmap string Assertion) :
  section (<[sec := am]> model) sec'
  = if decide (sec = sec') then am else section model sec'.
Proof.
  unfold section. rewrite lookup_insert. by destruct (decide (sec = sec')).
Qed.

Lemma loadPolicyLine_Ret (line : CasbinRule)
    (model model' : gmap string (gmap string Assertion)) :
  loadPolicyLine line model = Ret model' ↔
  ∃ sec ast,
    sliceTo1 (PType line) = Ret sec
    ∧ section model sec !! PType line = Some ast
    ∧ model' = <[sec := <[PType line :=
                           set_Policy ast
                             (Policy ast ++ [loadPolicyLine_tokens line])]>
                         (section model sec)]> model.
Proof.
  unfold loadPolicyLine. split.
  - destruct (sliceTo1 (PType line)) as [sec | e]; [| done].
    destruct (section model sec !! PType line) as [ast |] eqn:E; [| done].
    intros [= <-]. by exists sec, ast.
  - intros (sec & ast & -> & -> & ->). reflexivity.
Qed.

(** What one decoded line does to the entry of a rule type. *)
Lemma loadPolicyLine_lookup (line : CasbinRule)
    (model model' : gmap string (gmap string Assertion)) (sec key : string) :
  loadPolicyLine line model = Ret model' →
  section model' sec !! key
  = if decide (sliceTo1 key = Ret sec ∧ PType line = key)
    then (λ ast, set_Policy ast (Policy ast ++ [loadPolicyLine_tokens line]))
           <$> section model sec !! key
    else section model sec !! key.
Proof.
  intros (sec0 & ast & Hsec & Hast & ->)%loadPolicyLine_Ret.
  rewrite section_insert.
  destruct (decide (sec0 = sec)) as [<- |Hne].
  - rewrite lookup_insert. destruct (decide (PType line = key)) as [<- | Hk].
    + rewrite decide_True by done. by rewrite Hast.
    + rewrite decide_False; [done |]. by intros [_ ?].
  - rewrite decide_False; [done |]. intros [Hs <-]. congruence.
Qed.

(** X5. When decoding a sequence of fetched rules succeeds, the policy of
    every rule type has grown by the decoded field lists of the rules of
    that type, in the order in which they were fetched; assertions filed
    under another section than the one named by the first byte of their
    rule type are left as they were, and no section or rule type is added. *)
Theorem loadPolicyLines_policies (rules : list CasbinRule)
    (model model' : gmap string (gmap string Assertion)) :
  loadPolicyLines rules model = Ret model' →
  ∀ sec key,
    section model' sec !! key
    = if decide (sliceTo1 key = Ret sec)
      then (λ ast, set_Policy ast
                     (Policy ast
                      ++ map loadPolicyLine_tokens
                           (base.filter (λ r, PType r = key) rules)))
             <$> section model sec !! key
      else section model sec !! key.
Proof.
  revert model. induction rules as [| r rules IH]; intros model Hload sec key.
  - injection Hload as <-. cbn.
    destruct (decide _); [| done].
    destruct (section model sec !! key) as [[] |]; [| done].
    cbn. unfold set_Policy. cbn. by rewrite app_nil_r.
  - cbn [loadPolicyLines] in Hload.
    destruct (loadPolicyLine r model) as [m1 | e] eqn:E; [| done].
    rewrite (IH m1 Hload sec key).
    rewrite (loadPolicyLine_lookup r model m1 sec key E).
    destruct (decide (sliceTo1 key = Ret sec)) as [Hs | Hs].
    + rewrite filter_cons.
      destruct (decide (PType r = key)) as [Hk | Hk].
      * rewrite decide_True by done.
        destruct (section model sec !! key) as [ast |]; [| done].
        cbn. unfold set_Policy. cbn. by rewrite <- app_assoc.
      * rewrite decide_False; [done |]. by intros [_ ?].
    + rewrite decide_False; [done |]. by intros [? _].
Qed.

Lemma loadPolicyLine_declared (line r : CasbinRule)
    (model model' : gmap string (gmap string Assertion)) :
  loadPolicyLine line model = Ret model' →
  declared model' r ↔ declared model r.
Proof.
  intros H. unfold declared.
  split; intros (sec & Hsec & Hsome); exists sec; (split; [done |]).
  - rewrite (loadPolicyLine_lookup _ _ _ sec (PType r) H) in Hsome.
    destruct (decide _); [| done]. by apply fmap_is_Some in Hsome.
  - rewrite (loadPolicyLine_lookup _ _ _ sec (PType r) H).
    destruct (decide _); [| done]. by apply fmap_is_Some.
Qed.

(** X6. Decoding a sequence of fetched rules succeeds exactly when the
    model declares the type of each of them; a rule whose type is empty or
    has no assertion in the model makes the load fail at run time. *)
Theorem loadPolicyLines_succeeds_iff (rules : list CasbinRule)
    (model : gmap string (gmap string Assertion)) :
  (∃ model', loadPolicyLines rules model = Ret model')
  ↔ Forall (declared model) rules.
Proof.
  revert model. induction rules as [| r rules IH]; intros model.
  - split; [constructor | intros _; by eexists].
  - cbn [loadPolicyLines]. rewrite Forall_cons. split.
    + intros [model' H].
      destruct (loadPolicyLine r model) as [m1 | e] eqn:E; [| done].
      split.
      * apply loadPolicyLine_Ret in E as (sec & ast & Hsec & Hast & _).
        exists sec. split; [done |]. by rewrite Hast.
      * assert (Forall (declared m1) rules) as Hm1 by (apply IH; eauto).
        eapply Forall_impl; [exact Hm1 |]. intros r'.
        apply (loadPolicyLine_declared r r' model m1 E).
    + intros [(sec & Hsec & [ast Hast]) Hall].
      assert (∃ m1, loadPolicyLine r model = Ret m1) as [m1 E].
      { eexists. apply loadPolicyLine_Ret. by exists sec, ast. }
      rewrite E. apply IH.
      eapply Forall_impl; [exact Hall |]. intros r'.
      apply (loadPolicyLine_declared r r' model m1 E).
Qed.

(** X7. LoadPolicy only reads: whatever the store answers, the stored
    records are the same after the call; when the fetch fails, the error is
    returned and the model is handed back untouched, and an error is
    returned in no other case. *)
Theorem LoadPolicy_reads_only (a : adapter)
    (model : gmap string (gmap string Assertion)) (w : World) :
  entities (LoadPolicy a model w).2 = entities w
  ∧ (∀ e, head (faults w) = Some (Some e) →
       LoadPolicy a model w = (Ret (model, Some e), consume w))
  ∧ (∀ model' e, (LoadPolicy a model w).1 = Ret (model', Some e) →
       model' = model ∧ head (faults w) = Some (Some e)).
Proof.
  unfold LoadPolicy. rewrite bind_eq, GetAll_eq.
  destruct (head (faults w)) as [[e0 |] |]; cbn -[loadPolicyLines runQuery].
  - split; [done |]. split.
    + by intros e [= ->].
    + by intros model' e [= -> ->].
  - match goal with
    | |- context [loadPolicyLines ?r ?m] => destruct (loadPolicyLines r m)
    end; by repeat split.
  - match goal with
    | |- context [loadPolicyLines ?r ?m] => destruct (loadPolicyLines r m)
    end; by repeat split.
Qed.

Lemma LoadPolicy_reads_only_witness :
  LoadPolicy NewAdapter rbacModel
    {| entities := ∅; faults := [Some (ErrOther "unavailable")] |}
  = (Ret (rbacModel, Some (ErrOther "unavailable")),
     {| entities := ∅; faults := [] |}).
Proof.
  apply (LoadPolicy_reads_only NewAdapter rbacModel
           {| entities := ∅; faults := [Some (ErrOther "unavailable")] |}).
  reflexivity.
Defined.

(** ** Single-record updates against the store *)

Lemma elem_of_runQuery (q : Query) (m : gmap Key CasbinRule) (k : Key)
    (r : CasbinRule) :
  (k, r) ∈ runQuery q m ↔ m !! k = Some r ∧ matches q k r = true.
Proof.
  unfold runQuery. rewrite list_elem_of_In, filter_In, <- list_elem_of_In.
  rewrite elem_of_map_to_list. reflexivity.
Qed.

Lemma TrimSpace_not_blank (s : string) :
  isEmpty (TrimSpace s) = false → s ≠ "".
Proof. by intros H ->. Qed.

(** A record whose type tag is not empty, stored under the key that
    AddPolicy derives for it, is matched by the adapter's query. *)
Lemma matches_AddPolicy_key (a : adapter) (line : CasbinRule) :
  PType line ≠ "" → matches (newQuery a) (AddPolicy_key a line) line = true.
Proof.
  intros Hp. unfold matches, newQuery, AddPolicy_key. cbn.
  rewrite !eqb_refl. rewrite (bool_decide_eq_true_2 _ eq_refl).
  rewrite orb_true_r. cbn.
  unfold satisfies, compareOp. cbn. destruct (PType line); done.
Qed.

Lemma fetched_healthy (a : adapter) (w : World) :
  healthy w → fetched a w = (runQuery (newQuery a) (entities w)).*2.
Proof.
  intros H. unfold fetched. rewrite GetAll_eq.
  unfold healthy in H. destruct (faults w) as [| [e |] fs]; try done.
  by apply Forall_cons in H as [? _].
Qed.

(** X8. On a store that fails no call, a rule added by AddPolicy with a
    type tag that is not blank is among the rules that the fetch of
    LoadPolicy returns next. *)
Theorem AddPolicy_then_fetched (cfg : Config) (sec ptype : string)
    (rule : list string) (w : World) :
  isEmpty (TrimSpace ptype) = false →
  healthy w →
  let a := NewAdapterWithConfig cfg in
  savePolicyLine ptype rule ∈ fetched a (AddPolicy a sec ptype rule w).2.
Proof.
  intros Hp Hw a. unfold a.
  rewrite (AddPolicy_healthy cfg sec ptype rule w Hp Hw). cbn [snd].
  rewrite fetched_healthy.
  2: { unfold healthy in *. cbn. destruct (faults w); [done |].
       by apply Forall_cons in Hw as [_ Hw]. }
  cbn [entities].
  apply (list_elem_of_fmap_2' snd _
           (AddPolicy_key (NewAdapterWithConfig cfg) (savePolicyLine ptype rule),
            savePolicyLine ptype rule)); [| reflexivity].
  apply elem_of_runQuery. split; [apply lookup_insert_eq |].
  apply matches_AddPolicy_key. by apply TrimSpace_not_blank.
Qed.

Lemma AddPolicy_then_fetched_witness :
  savePolicyLine "p" ["alice"; "data1"; "read"]
  ∈ fetched (NewAdapterWithConfig testConfig)
      (AddPolicy (NewAdapterWithConfig testConfig) "p" "p"
         ["alice"; "data1"; "read"] {| entities := ∅; faults := [] |}).2.
Proof.
  apply (AddPolicy_then_fetched testConfig "p" "p" ["alice"; "data1"; "read"]
           {| entities := ∅; faults := [] |}).
  - reflexivity.
  - constructor.
Defined.

Lemma Commit_healthy (mus : list Mutation) (w : World) :
  healthy w →
  Commit mus w
  = (None, {| entities := applyMutations (entities w) mus;
              faults := tail (faults w) |}).
Proof.
  intros H. unfold Commit. rewrite bind_eq, rpc_healthy by done. reflexivity.
Qed.




(** ** What a save leaves in the store *)

Lemma SavePolicy_cases (a : adapter)
    (model : gmap string (gmap string Assertion)) (w : World) :
  ((SavePolicy a model w).1 = None
   ∧ entities (SavePolicy a model w).2
     = applyMutations (entities w) (saveMutations a model (entities w)))
  ∨ ((SavePolicy a model w).1 ≠ None
     ∧ entities (SavePolicy a model w).2 = entities w).
Proof.
  unfold SavePolicy. rewrite bind_eq, GetAll_eq.
  destruct (default None (head (faults w))) as [e0 |]; [by right |].
  cbn [fst snd].
  set (keys := (runQuery (Query_KeysOnly (newQuery a)) (entities w)).*1).
  set (lines := sectionLines model "p" ++ sectionLines model "g").
  set (f := λ tx : Transaction, bind (Transaction_DeleteMulti tx keys) _).
  assert (∀ tx w0, entities (f tx w0).2 = entities w0) as Hf1.
  { intros tx w0. unfold f. rewrite bind_eq.
    destruct (Transaction_DeleteMulti_spec tx keys w0) as [Hent _].
    destruct (Transaction_DeleteMulti tx keys w0) as [[err tx'] w1].
    cbn [fst snd] in *. destruct err; [done |].
    destruct (putLines_spec a (pseudoRootKey a) lines tx' w1) as [Hent' _].
    congruence. }
  assert (∀ w0, (f {| mutations := [] |} w0).1.1 = None →
                mutations (f {| mutations := [] |} w0).1.2
                = saveMutations a model (entities w)) as Hf2.
  { intros w0. unfold f. rewrite bind_eq.
    destruct (Transaction_DeleteMulti_spec {| mutations := [] |} keys w0)
      as [_ Hmut].
    destruct (Transaction_DeleteMulti {| mutations := [] |} keys w0)
      as [[err tx'] w1].
    cbn [fst snd] in *. destruct err; [done |].
    destruct (putLines_spec a (pseudoRootKey a) lines tx' w1) as [_ Hmut'].
    intros Hok. rewrite (Hmut' Hok), (Hmut eq_refl). reflexivity. }
  exact (runAttempts_atomic f _ Hf1 Hf2 maxAttempts (consume w)).
Qed.

Lemma applyMutations_app (m : gmap Key CasbinRule) (l1 l2 : list Mutation) :
  applyMutations m (l1 ++ l2) = applyMutations (applyMutations m l1) l2.
Proof. apply foldl_app. Qed.

Lemma lookup_deletes (m : gmap Key CasbinRule) (ks : list Key) (k : Key) :
  applyMutations m (map mutDelete ks) !! k
  = if decide (k ∈ ks) then None else m !! k.
Proof.
  revert m. induction ks as [| k0 ks IH]; intros m.
  - cbn. rewrite decide_False; [done |]. apply not_elem_of_nil.
  - cbn [map applyMutations foldl applyMutation].
    change (foldl applyMutation (delete k0 m) (map mutDelete ks))
      with (applyMutations (delete k0 m) (map mutDelete ks)).
    rewrite IH. destruct (decide (k ∈ ks)) as [Hin | Hin].
    + rewrite decide_True; [done |]. by right.
    + destruct (decide (k = k0)) as [-> | Hne].
      * rewrite lookup_delete_eq. rewrite decide_True; [done | by left].
      * rewrite lookup_delete_ne by done.
        rewrite decide_False; [done |].
        intros [? | ?]%elem_of_cons; done.
Qed.

(** A property of stored records that every put establishes survives a
    sequence of puts. *)
Lemma puts_invariant (P : Key → CasbinRule → Prop) (keyOf : CasbinRule → Key)
    (lines : list CasbinRule) (m : gmap Key CasbinRule) :
  (∀ k r, m !! k = Some r → P k r) →
  (∀ line m', line ∈ lines →
     P (keyOf line) line ∧ P (allocate m' (keyOf line)) line) →
  ∀ k r,
    applyMutations m (map (λ line, putOf (keyOf line) line) lines) !! k = Some r →
    P k r.
Proof.
  revert m. induction lines as [| l lines IH]; intros m Hm Hput k r; [apply Hm |].
  cbn [map applyMutations foldl].
  apply IH.
  - intros k' r'. destruct (Hput l m) as [H1 H2]; [by left |].
    unfold putOf. destruct (Incomplete (keyOf l)); cbn [applyMutation];
      intros [[<- <-] | [_ ?]]%lookup_insert_Some; auto.
  - intros line m' Hin. apply Hput. by right.
Qed.

(** The last line put under a complete key is the one found there. *)
Lemma puts_lookup (keyOf : CasbinRule → Key) (lines : list CasbinRule)
    (m : gmap Key CasbinRule) (line : CasbinRule) :
  line ∈ lines →
  Incomplete (keyOf line) = false →
  (∀ l m', Incomplete (keyOf l) = true → allocate m' (keyOf l) ≠ keyOf line) →
  ∃ line', line' ∈ lines ∧ keyOf line' = keyOf line
    ∧ applyMutations m (map (λ l, putOf (keyOf l) l) lines) !! keyOf line
      = Some line'.
Proof.
  intros Hin Hc Hfresh. revert Hin.
  induction lines as [| x lines IH] using rev_ind; [by intros ?%elem_of_nil |].
  intros Hin. rewrite map_app, applyMutations_app.
  cbn [map applyMutations foldl].
  destruct (decide (keyOf x = keyOf line)) as [Heq | Hne].
  - exists x. split; [apply elem_of_app; right; by left |]. split; [done |].
    unfold putOf. rewrite Heq, Hc. cbn. apply lookup_insert_eq.
  - apply elem_of_app in Hin as [Hin | Hin%list_elem_of_singleton];
      [| by subst].
    destruct (IH Hin) as (line' & Hin' & Hk & Hl).
    exists line'. split; [apply elem_of_app; by left |]. split; [done |].
    unfold putOf. destruct (Incomplete (keyOf x)) eqn:Hx; cbn [applyMutation].
    + rewrite lookup_insert_ne; [done |]. by apply Hfresh.
    + by rewrite lookup_insert_ne.
Qed.

(** X10. After a successful SavePolicy every stored record that the
    adapter's query matches is one of the lines of the saved model: nothing
    that was stored in the partition before the save can be loaded after it. *)
Theorem SavePolicy_leaves_no_stale_record (a : adapter)
    (model : gmap string (gmap string Assertion)) (w : World) :
  (SavePolicy a model w).1 = None →
  ∀ k r, (k, r) ∈ runQuery (newQuery a) (entities (SavePolicy a model w).2) →
         r ∈ savedLines model.
Proof.
  intros Hok k r [Hl Hm]%elem_of_runQuery.
  destruct (SavePolicy_cases a model w) as [[_ He] | [Hne _]]; [| done].
  rewrite He in Hl. unfold saveMutations in Hl.
  rewrite applyMutations_app in Hl. revert Hm.
  eapply (puts_invariant
            (λ k r, matches (newQuery a) k r = true → r ∈ savedLines model)
            (SavePolicy_key a (pseudoRootKey a)) (savedLines model));
    [| | exact Hl].
  - intros k' r' Hl' Hm'. rewrite lookup_deletes in Hl'.
    destruct (decide _) as [| Hnot]; [done |]. destruct Hnot.
    apply (list_elem_of_fmap_2' fst _ (k', r')); [| reflexivity].
    by apply elem_of_runQuery.
  - by intros line m' Hin.
Qed.

Lemma Incomplete_Name (k : Key) : Incomplete k = true → Name k = "".
Proof.
  unfold Incomplete. intros [H _]%andb_true_iff. by apply isEmpty_true.
Qed.

(** X11. After a successful SavePolicy, for every line of the model whose
    type tag is not blank, the record stored under the line's key is a line
    of the model with the same identity (the last one written, when several
    rules share an identity). *)
Theorem SavePolicy_stores_lines (a : adapter)
    (model : gmap string (gmap string Assertion)) (w : World)
    (line : CasbinRule) :
  (SavePolicy a model w).1 = None →
  line ∈ savedLines model →
  isEmpty (TrimSpace (PType line)) = false →
  ∃ line', line' ∈ savedLines model
    ∧ CasbinRule_String line' = CasbinRule_String line
    ∧ entities (SavePolicy a model w).2 !! SavePolicy_key a (pseudoRootKey a) line
      = Some line'.
Proof.
  intros Hok Hin Hp.
  destruct (SavePolicy_cases a model w) as [[_ He] | [Hne _]]; [| done].
  rewrite He. unfold saveMutations. rewrite applyMutations_app.
  assert (isEmpty (CasbinRule_String line) = false) as Hs
    by by apply String_not_empty.
  destruct (puts_lookup (SavePolicy_key a (pseudoRootKey a)) (savedLines model)
              (applyMutations (entities w)
                 (map mutDelete
                    (runQuery (Query_KeysOnly (newQuery a)) (entities w)).*1))
              line Hin)
    as (line' & Hin' & Hk & Hl).
  - unfold Incomplete, SavePolicy_key. cbn. by rewrite Hs.
  - intros l m' Hl Heq. apply Incomplete_Name in Hl.
    apply (f_equal Name) in Heq. cbn in Heq.
    cbn in Hl. rewrite Hl in Heq. rewrite <- Heq in Hs. done.
  - exists line'. split; [done |]. split; [| exact Hl].
    apply (f_equal Name) in Hk. exact Hk.
Qed.

Lemma SavePolicy_stores_lines_witness :
  let a := NewAdapter in
  let model :=
    <["p" := <["p" := set_Policy (emptyAssertion "p")
                        [["alice"; "data1"; "read"]; ["bob"; "data2"; "write"]]]>
               ∅]> rbacModel in
  let w := {| entities := ∅; faults := [] |} in
  ∃ line',
    CasbinRule_String line' = "p,bob,data2,write"
    ∧ entities (SavePolicy a model w).2
        !! SavePolicy_key a (pseudoRootKey a)
             (savePolicyLine "p" ["bob"; "data2"; "write"])
      = Some line'.
Proof.
  intros a model w.
  destruct (SavePolicy_stores_lines a model w
              (savePolicyLine "p" ["bob"; "data2"; "write"]))
    as (line' & _ & Hid & Hl).
  - vm_compute. reflexivity.
  - vm_compute. right. left.
  - reflexivity.
  - exists line'. split; [exact Hid | exact Hl].
Defined.

(** ** Filtered removal against the store *)

Lemma compare_refl (s : string) : String.compare s s = Eq.
Proof.
  pose proof (String.compare_antisym s s) as H.
  destruct (String.compare s s); done.
Qed.

Lemma satisfies_equal (r : CasbinRule) (n v : string) :
  satisfies r (mkFilter n opEqual v) = true ↔ property r n = Some v.
Proof.
  unfold satisfies, compareOp. cbn.
  destruct (property r n) as [x |]; [| done]. split.
  - destruct (String.compare x v) eqn:E; try done.
    apply String.compare_eq_iff in E. by subst.
  - intros [= ->]. by rewrite compare_refl.
Qed.

Lemma foldl_Query_Filter (q : Query) (l : list (string * string)) :
  let q' := foldl (λ query '(k, v), Query_Filter query k opEqual v) q l in
  q_kind q' = q_kind q ∧ q_namespace q' = q_namespace q
  ∧ q_ancestor q' = q_ancestor q
  ∧ q_filter q' = q_filter q ++ map (λ '(k, v), mkFilter k opEqual v) l.
Proof.
  revert q. induction l as [| [k v] l IH]; intros q; cbn [foldl map].
  - by rewrite app_nil_r.
  - destruct (IH (Query_Filter q k opEqual v)) as (H1 & H2 & H3 & H4).
    cbn zeta. rewrite H1, H2, H3, H4. cbn. by rewrite <- app_assoc.
Qed.

(** The narrowed query matches what the adapter's query matches and every
    selector entry agrees with. *)
Lemma matches_narrowed (a : adapter) (selector : gmap string string)
    (k : Key) (r : CasbinRule) :
  matches (RemoveFilteredPolicy_query a selector) k r = true
  ↔ matches (newQuery a) k r = true
    ∧ ∀ n v, selector !! n = Some v → property r n = Some v.
Proof.
  unfold RemoveFilteredPolicy_query.
  destruct (foldl_Query_Filter (newQuery a) (map_to_list selector))
    as (H1 & H2 & H3 & H4). cbn zeta in *.
  unfold matches at 1. rewrite H1, H2, H3, H4, forallb_app.
  fold (matches (newQuery a) k r).
  rewrite andb_assoc.
  change (String.eqb (datastore.Kind k) (q_kind (newQuery a))
          && String.eqb (datastore.Namespace k) (q_namespace (newQuery a))
          && match q_ancestor (newQuery a) with
             | Some anc => hasAncestor anc k
             | None => true
             end && forallb (satisfies r) (q_filter (newQuery a)))
    with (matches (newQuery a) k r).
  rewrite andb_true_iff, forallb_forall.
  apply and_iff_compat_l. split.
  - intros H n v Hl. apply satisfies_equal. apply H.
    apply in_map_iff. exists (n, v). split; [done |].
    apply list_elem_of_In. by apply elem_of_map_to_list.
  - intros H f [[n v] [<- Hin]]%in_map_iff.
    apply satisfies_equal. apply H.
    by apply elem_of_map_to_list, list_elem_of_In.
Qed.

Lemma property_slotName (r : CasbinRule) (p : Z) :
  0 ≤ p ≤ 5 → property r (slotName p) = slots r !! Z.to_nat p.
Proof.
  intros Hp.
  assert (p = 0 ∨ p = 1 ∨ p = 2 ∨ p = 3 ∨ p = 4 ∨ p = 5)
    as [-> | [-> | [-> | [-> | [-> | ->]]]]] by lia; reflexivity.
Qed.

(** The entries of the selector, read off the six blocks. *)
Lemma selector_lookup (ptype : string) (fieldIndex : Z)
    (fieldValues : list string) :
  is_int fieldIndex → len fieldValues ≤ maxLen →
  ∃ selector,
    RemoveFilteredPolicy_selector ptype fieldIndex fieldValues = Ret selector
    ∧ ∀ n v, selector !! n = Some v
             ↔ (n = "ptype" ∧ v = ptype)
               ∨ ∃ p, 0 ≤ p ≤ 5 ∧ n = slotName p
                      ∧ covered fieldIndex fieldValues p = Some v ∧ v ≠ "".
Proof.
  intros Hint Hlen. eexists. split; [by apply selector_slotEntries |].
  set (selector := slotEntry 5 _ _ _ _).
  assert (∀ p v, 0 ≤ p ≤ 5 →
            selector !! slotName p = Some v
            ↔ covered fieldIndex fieldValues p = Some v ∧ v ≠ "") as Hslot.
  { intros p v Hp. unfold selector.
    assert (covered fieldIndex fieldValues p = Some v ∧ v ≠ ""
            ↔ fieldIndex ≤ p < fieldIndex + len fieldValues
              ∧ fieldValues !! Z.to_nat (p - fieldIndex) = Some v ∧ v ≠ "")
      as ->.
    { unfold covered.
      destruct (Z.leb_spec fieldIndex p),
        (Z.ltb_spec p (fieldIndex + len fieldValues)); cbn [andb];
        (split; [intros [Hc Hv] | intros (Hr & Hc & Hv)];
         [try discriminate Hc | try lia]; repeat split; (done || lia)). }
    assert (p = 0 ∨ p = 1 ∨ p = 2 ∨ p = 3 ∨ p = 4 ∨ p = 5)
      as [-> | [-> | [-> | [-> | [-> | ->]]]]] by lia;
      cbn [slotName Z.eqb];
      rewrite ?lookup_slotEntry_ne by done;
      apply lookup_slotEntry_eq; try done;
      rewrite ?lookup_slotEntry_ne by done; done. }
  assert (selector !! "ptype" = Some ptype) as Hptype.
  { unfold selector. rewrite !lookup_slotEntry_ne by done.
    apply lookup_insert_eq. }
  assert (dom selector ⊆ {["ptype"; "v0"; "v1"; "v2"; "v3"; "v4"; "v5"]})
    as Hdom.
  { unfold selector.
    repeat (apply dom_slotEntry; [set_unfold; tauto |]).
    rewrite dom_insert, dom_empty. set_unfold. tauto. }
  intros n v. split.
  - intros Hl.
    assert (n ∈ dom selector) as Hn by (apply elem_of_dom; eauto).
    apply Hdom in Hn. set_unfold in Hn.
    destruct Hn as [[[[[[Hn | Hn] | Hn] | Hn] | Hn] | Hn] | Hn]; subst n.
    + left. split; [done | congruence].
    + right. exists 0. split; [lia |]. split; [done |]. by apply Hslot.
    + right. exists 1. split; [lia |]. split; [done |]. by apply Hslot.
    + right. exists 2. split; [lia |]. split; [done |]. by apply Hslot.
    + right. exists 3. split; [lia |]. split; [done |]. by apply Hslot.
    + right. exists 4. split; [lia |]. split; [done |]. by apply Hslot.
    + right. exists 5. split; [lia |]. split; [done |]. by apply Hslot.
  - intros [[-> ->] | (p & Hp & -> & Hc)]; [done | by apply Hslot].
Qed.

(** The narrowed query built from the selector matches exactly the records
    that fall under the pattern. *)
Lemma matches_pattern (a : adapter) (ptype : string) (fieldIndex : Z)
    (fieldValues : list string) (selector : gmap string string)
    (k : Key) (r : CasbinRule) :
  is_int fieldIndex → len fieldValues ≤ maxLen →
  RemoveFilteredPolicy_selector ptype fieldIndex fieldValues = Ret selector →
  matches (RemoveFilteredPolicy_query a selector) k r = true
  ↔ matchesPattern a ptype fieldIndex fieldValues k r.
Proof.
  intros Hint Hlen Hsel.
  destruct (selector_lookup ptype fieldIndex fieldValues Hint Hlen)
    as (sel & Hsel' & Hl).
  rewrite Hsel in Hsel'. injection Hsel' as <-.
  rewrite matches_narrowed. unfold matchesPattern.
  apply and_iff_compat_l. split.
  - intros H. split.
    + assert (property r "ptype" = Some ptype) as Hp
        by (apply H, Hl; by left).
      cbn in Hp. congruence.
    + intros p v Hp Hc Hv. rewrite <- property_slotName by done.
      apply H, Hl. right. by exists p.
  - intros [Hp Hs] n v [[-> ->] | (p & Hp' & -> & Hc & Hv)]%Hl.
    + cbn. by rewrite Hp.
    + rewrite property_slotName by done. by apply Hs.
Qed.

(** On a store that fails no call and holds its records under complete
    keys, a filtered removal deletes the records that its query returns. *)
Lemma RemoveFilteredPolicy_healthy (a : adapter) (sec ptype : string)
    (fieldIndex : Z) (fieldValues : list string) (w : World)
    (selector : gmap string string) :
  RemoveFilteredPolicy_selector ptype fieldIndex fieldValues = Ret selector →
  healthy w → completeKeys (entities w) →
  RemoveFilteredPolicy a sec ptype fieldIndex fieldValues w
  = (Ret None,
     {| entities :=
          applyMutations (entities w)
            (map mutDelete
               (runQuery (RemoveFilteredPolicy_query a selector) (entities w)).*1);
        faults := tail (tail (faults w)) |}).
Proof.
  intros Hsel Hw Hc. unfold RemoveFilteredPolicy. rewrite Hsel.
  rewrite bind_eq, GetAll_eq.
  assert (default None (head (faults w)) = None) as ->.
  { unfold healthy in Hw. destruct (faults w) as [| e fs]; [done |].
    by apply Forall_cons in Hw as [-> _]. }
  cbn [fst snd]. rewrite bind_eq.
  unfold DeleteMulti, deleteMutations.
  set (found := runQuery _ _).
  assert (existsb Incomplete found.*1 = false) as ->.
  { apply not_true_is_false. intros (k & Hin & Hk)%existsb_exists.
    apply list_elem_of_In, list_elem_of_fmap in Hin as ([k' r] & -> & Hin).
    apply elem_of_runQuery in Hin as [Hl _].
    rewrite Hc in Hk; [done | by eexists]. }
  rewrite Commit_healthy by by apply healthy_consume.
  reflexivity.
Qed.

Lemma elem_of_found (q : Query) (m : gmap Key CasbinRule) (k : Key) :
  k ∈ (runQuery q m).*1 ↔ ∃ r, m !! k = Some r ∧ matches q k r = true.
Proof.
  rewrite list_elem_of_fmap. split.
  - intros ([k' r] & -> & Hin). exists r. by apply elem_of_runQuery.
  - intros (r & Hin). exists (k, r). split; [done |].
    by apply elem_of_runQuery.
Qed.

Lemma RemoveFilteredPolicy_lookup (a : adapter) (sec ptype : string)
    (fieldIndex : Z) (fieldValues : list string) (w : World) :
  is_int fieldIndex → len fieldValues ≤ maxLen →
  healthy w → completeKeys (entities w) →
  (RemoveFilteredPolicy a sec ptype fieldIndex fieldValues w).1 = Ret None
  ∧ ∀ k r,
      entities (RemoveFilteredPolicy a sec ptype fieldIndex fieldValues w).2 !! k
      = Some r
      ↔ entities w !! k = Some r
        ∧ ¬ matchesPattern a ptype fieldIndex fieldValues k r.
Proof.
  intros Hint Hlen Hw Hc.
  destruct (selector_lookup ptype fieldIndex fieldValues Hint Hlen)
    as (selector & Hsel & _).
  rewrite (RemoveFilteredPolicy_healthy a sec ptype fieldIndex fieldValues w
             selector Hsel Hw Hc).
  split; [done |]. intros k r. cbn [snd entities].
  rewrite lookup_deletes.
  destruct (decide _) as [Hin | Hnot].
  - split; [done |]. intros [Hl Hn].
    apply elem_of_found in Hin as (r' & Hl' & Hm).
    assert (r' = r) as -> by congruence.
    destruct Hn. by apply (matches_pattern a ptype fieldIndex fieldValues selector).
  - split.
    + intros Hl. split; [done |]. intros Hp. apply Hnot.
      apply elem_of_found. exists r. split; [done |].
      by apply (matches_pattern a ptype fieldIndex fieldValues selector).
    + by intros [Hl _].
Qed.

(** X12. On a store that fails no call, RemoveFilteredPolicy returns
    success and deletes exactly the records that fall under its pattern: a
    record is stored afterwards if and only if it was stored before and
    either the adapter's query does not match it, or its type tag is not the
    given one, or some slot that the pattern covers with a non-empty value
    holds another value. *)
Theorem RemoveFilteredPolicy_deletes_pattern (a : adapter) (sec ptype : string)
    (fieldIndex : Z) (fieldValues : list string) (w : World) :
  is_int fieldIndex → len fieldValues ≤ maxLen →
  healthy w → completeKeys (entities w) →
  (RemoveFilteredPolicy a sec ptype fieldIndex fieldValues w).1 = Ret None
  ∧ ∀ k r,
      entities (RemoveFilteredPolicy a sec ptype fieldIndex fieldValues w).2 !! k
      = Some r
      ↔ entities w !! k = Some r
        ∧ ¬ matchesPattern a ptype fieldIndex fieldValues k r.
Proof. apply RemoveFilteredPolicy_lookup. Qed.

Lemma RemoveFilteredPolicy_deletes_pattern_witness :
  let a := NewAdapter in
  let alice := savePolicyLine "p" ["alice"; "data1"; "read"] in
  let bob := savePolicyLine "p" ["bob"; "data2"; "write"] in
  let w := {| entities := <[AddPolicy_key a bob := bob]>
                            (<[AddPolicy_key a alice := alice]> ∅);
              faults := [] |} in
  entities (RemoveFilteredPolicy a "p" "p" 1 ["data2"] w).2
    !! AddPolicy_key a alice = Some alice.
Proof.
  intros a alice bob w.
  destruct (RemoveFilteredPolicy_deletes_pattern a "p" "p" 1 ["data2"] w)
    as [_ H].
  - unfold is_int, int_min, int_max. lia.
  - unfold len, maxLen. simpl. lia.
  - constructor.
  - intros k [r Hr]. cbn [entities w] in Hr.
    apply lookup_insert_Some in Hr as [[<- _] | [_ Hr]]; [reflexivity |].
    apply lookup_insert_Some in Hr as [[<- _] | [_ Hr]]; [reflexivity |].
    by rewrite lookup_empty in Hr.
  - apply H. split; [vm_compute; reflexivity |].
    intros (_ & _ & Hs). specialize (Hs 1 "data2").
    assert (slots alice !! Z.to_nat 1 = Some "data2") as Hbad
      by (apply Hs; [lia | reflexivity | discriminate]).
    discriminate Hbad.
Defined.

Lemma slotEntry_uncovered (p : Z) (name : string) (fieldIndex : Z)
    (fieldValues : list string) (selector : gmap string string) :
  (∀ v, covered fieldIndex fieldValues p = Some v → v = "") →
  slotEntry p name fieldIndex fieldValues selector = selector.
Proof.
  intros H. unfold slotEntry.
  destruct (covered fieldIndex fieldValues p) as [v |]; [| done].
  by rewrite (H v eq_refl).
Qed.

Lemma covered_Some (fieldIndex : Z) (fieldValues : list string) (p : Z)
    (v : string) :
  covered fieldIndex fieldValues p = Some v →
  fieldIndex ≤ p < fieldIndex + len fieldValues ∧ v ∈ fieldValues.
Proof.
  unfold covered.
  destruct (Z.leb_spec fieldIndex p),
    (Z.ltb_spec p (fieldIndex + len fieldValues)); cbn [andb]; try done.
  intros Hv. split; [lia |]. by eapply list_elem_of_lookup_2.
Qed.

(** X13. When the pattern of a filtered removal covers no slot with a
    non-empty value (the index lies past the last slot, the values end
    before the first slot, or every value is empty), the selector holds the
    type tag only, and on a store that fails no call RemoveFilteredPolicy
    deletes every record of that rule type that the adapter's query
    matches, and nothing else. *)
Theorem RemoveFilteredPolicy_uncovered (a : adapter) (sec ptype : string)
    (fieldIndex : Z) (fieldValues : list string) (w : World) :
  is_int fieldIndex → len fieldValues ≤ maxLen →
  5 < fieldIndex ∨ fieldIndex + len fieldValues ≤ 0
  ∨ Forall (λ v, v = "") fieldValues →
  RemoveFilteredPolicy_selector ptype fieldIndex fieldValues
  = Ret (<["ptype" := ptype]> ∅)
  ∧ (healthy w → completeKeys (entities w) →
     ∀ k r,
       entities (RemoveFilteredPolicy a sec ptype fieldIndex fieldValues w).2 !! k
       = Some r
       ↔ entities w !! k = Some r
         ∧ ¬ (matches (newQuery a) k r = true ∧ PType r = ptype)).
Proof.
  intros Hint Hlen Hcase.
  assert (∀ p v, 0 ≤ p ≤ 5 → covered fieldIndex fieldValues p = Some v → v = "")
    as Hnone.
  { intros p v Hp [Hr Hin]%covered_Some.
    destruct Hcase as [? | [? | Hall]]; [lia | lia |].
    by apply (proj1 (Forall_forall _ _) Hall). }
  split.
  - rewrite (selector_slotEntries fieldIndex fieldValues Hint Hlen).
    rewrite !slotEntry_uncovered; [done | ..]; intros v; apply Hnone; lia.
  - intros Hw Hc k r.
    destruct (RemoveFilteredPolicy_lookup a sec ptype fieldIndex fieldValues w
                Hint Hlen Hw Hc) as [_ H].
    rewrite H. apply and_iff_compat_l. unfold matchesPattern.
    split; intros Hn Hm; apply Hn.
    + destruct Hm as [? ?]. repeat split; try done.
      intros p v Hp Hcov Hv. by destruct Hv; eapply Hnone.
    + by destruct Hm as (? & ? & _).
Qed.

Lemma RemoveFilteredPolicy_uncovered_witness :
  RemoveFilteredPolicy_selector "p" 6 ["alice"] = Ret (<["ptype" := "p"]> ∅)
  ∧ RemoveFilteredPolicy_selector "p" 0 [""; ""] = Ret (<["ptype" := "p"]> ∅).
Proof.
  split.
  - apply (RemoveFilteredPolicy_uncovered NewAdapter "p" "p" 6 ["alice"]
             {| entities := ∅; faults := [] |}).
    + unfold is_int, int_min, int_max. lia.
    + unfold len, maxLen. simpl. lia.
    + left. lia.
  - apply (RemoveFilteredPolicy_uncovered NewAdapter "p" "p" 0 [""; ""]
             {| entities := ∅; faults := [] |}).
    + unfold is_int, int_min, int_max. lia.
    + unfold len, maxLen. simpl. lia.
    + right. right. repeat constructor.
Defined.

Lemma SavePolicy_leaves_no_stale_record_witness :
  let a := NewAdapter in
  let model :=
    <["p" := <["p" := set_Policy (emptyAssertion "p")
                        [["bob"; "data2"; "write"]]]> ∅]> rbacModel in
  let w := (AddPolicy a "p" "p" ["alice"; "data1"; "read"]
              {| entities := ∅; faults := [] |}).2 in
  Forall (λ kr, kr.2 ∈ [savePolicyLine "p" ["bob"; "data2"; "write"]])
         (runQuery (newQuery a) (entities (SavePolicy a model w).2)).
Proof.
  intros a model w. apply Forall_forall. intros [k r] Hin.
  apply (SavePolicy_leaves_no_stale_record a model w) in Hin;
    [exact Hin | vm_compute; reflexivity].
Defined.

(** ** Partitions *)

Lemma matches_inPartition (a : adapter) (k : Key) (r : CasbinRule) :
  matches (newQuery a) k r = true → inPartition a k.
Proof.
  unfold matches, inPartition. cbn.
  intros H. repeat (apply andb_true_iff in H as [H ?]).
  split; by apply String.eqb_eq.
Qed.

Lemma applyMutations_outside (a : adapter) (m : gmap Key CasbinRule)
    (mus : list Mutation) (k0 : Key) :
  Forall (λ mu, inPartition a (mutationKey mu)) mus →
  ¬ inPartition a k0 →
  applyMutations m mus !! k0 = m !! k0.
Proof.
  intros Hall Hout. revert m.
  induction Hall as [| mu mus Hmu _ IH]; intros m; [done |].
  cbn [applyMutations foldl].
  change (foldl applyMutation (applyMutation m mu) mus)
    with (applyMutations (applyMutation m mu) mus).
  rewrite IH. destruct mu as [k r | k r | k]; cbn [applyMutation mutationKey] in *.
  - rewrite lookup_insert_ne; [done |]. by intros ->.
  - rewrite lookup_insert_ne; [done |]. intros <-. by apply Hout.
  - rewrite lookup_delete_ne; [done |]. by intros ->.
Qed.

Lemma Commit_outside (a : adapter) (mus : list Mutation) (w : World) (k0 : Key) :
  Forall (λ mu, inPartition a (mutationKey mu)) mus →
  ¬ inPartition a k0 →
  entities (Commit mus w).2 !! k0 = entities w !! k0.
Proof.
  intros Hall Hout.
  destruct (Commit_spec mus w) as [[_ ->] | [_ ->]]; [| done].
  by apply applyMutations_outside with (a := a).
Qed.

Lemma found_inPartition (a : adapter) (q : Query) (m : gmap Key CasbinRule) :
  (∀ k r, matches q k r = true → inPartition a k) →
  Forall (λ mu, inPartition a (mutationKey mu)) (map mutDelete (runQuery q m).*1).
Proof.
  intros Hq. apply Forall_forall. intros mu Hin.
  apply list_elem_of_In, in_map_iff in Hin as (k & <- & Hin).
  apply list_elem_of_In, elem_of_found in Hin as (r & _ & Hm).
  by apply (Hq k r).
Qed.

(** X14. SavePolicy, AddPolicy and RemoveFilteredPolicy change nothing
    outside the adapter's partition: whatever the store answers, a key whose
    kind or namespace is not the configured one holds after the call what it
    held before. *)
Theorem partition_isolation (a : adapter) (w : World) (k : Key) :
  ¬ inPartition a k →
  (∀ model, entities (SavePolicy a model w).2 !! k = entities w !! k)
  ∧ (∀ sec ptype rule,
       entities (AddPolicy a sec ptype rule w).2 !! k = entities w !! k)
  ∧ (∀ sec ptype fieldIndex fieldValues,
       entities (RemoveFilteredPolicy a sec ptype fieldIndex fieldValues w).2 !! k
       = entities w !! k).
Proof.
  intros Hout. split; [| split].
  - intros model.
    destruct (SavePolicy_cases a model w) as [[_ ->] | [_ ->]]; [| done].
    apply applyMutations_outside with (a := a); [| done].
    unfold saveMutations. apply Forall_app. split.
    + apply found_inPartition. intros k' r. apply matches_inPartition.
    + apply Forall_forall. intros mu Hin.
      apply list_elem_of_In, in_map_iff in Hin as (line & <- & _).
      unfold putOf. by destruct (Incomplete _).
  - intros sec ptype rule. unfold AddPolicy, Put.
    destruct (putMutation _ _) as [e | mu] eqn:E; [done |].
    apply putMutation_inr in E as ->.
    apply Commit_outside with (a := a); [| done].
    constructor; [| constructor]. unfold putOf. by destruct (Incomplete _).
  - intros sec ptype fieldIndex fieldValues. unfold RemoveFilteredPolicy.
    destruct (RemoveFilteredPolicy_selector _ _ _) as [selector | e]; [| done].
    rewrite bind_eq, GetAll_eq.
    destruct (default None (head (faults w))) as [[] |]; try done.
    cbn [fst snd]. rewrite bind_eq. unfold DeleteMulti.
    destruct (deleteMutations _) as [e | mus] eqn:E; [done |].
    apply deleteMutations_inr in E as ->.
    cbn [ret snd]. transitivity (entities (consume w) !! k); [| done].
    apply Commit_outside with (a := a); [| done].
    apply found_inPartition. intros k' r [Hm _]%matches_narrowed.
    by apply matches_inPartition in Hm.
Qed.

Lemma partition_isolation_witness :
  let a := NewAdapterWithConfig testConfig in
  let other := AddPolicy_key NewAdapter (savePolicyLine "p" ["alice"]) in
  let w := {| entities := <[other := savePolicyLine "p" ["alice"]]> ∅;
              faults := [] |} in
  entities (SavePolicy a rbacModel w).2 !! other
  = Some (savePolicyLine "p" ["alice"]).
Proof.
  intros a other w.
  destruct (partition_isolation a w other) as [H _].
  - intros [H _]. discriminate H.
  - rewrite H. apply lookup_insert_eq.
Defined.



(** X16. For an adapter made by the constructor, the key that AddPolicy
    and SavePolicy derive for a record is a valid key; it is incomplete, so
    that the store picks an identifier of its own for the record, exactly
    when the type tag of the record is blank, and the identity is the empty
    string in exactly that case. *)
Theorem record_key_complete_iff (cfg : Config) (line : CasbinRule) :
  let a := NewAdapterWithConfig cfg in
  SavePolicy_key a (pseudoRootKey a) line = AddPolicy_key a line
  ∧ valid (AddPolicy_key a line) = true
  ∧ isEmpty (CasbinRule_String line) = isEmpty (TrimSpace (PType line))
  ∧ Incomplete (AddPolicy_key a line) = isEmpty (TrimSpace (PType line)).
Proof.
  intros a. split; [reflexivity |].
  split; [apply AddPolicy_key_valid, NewAdapterWithConfig_Kind |].
  assert (isEmpty (CasbinRule_String line) = isEmpty (TrimSpace (PType line)))
    as Hs.
  { destruct (isEmpty (TrimSpace (PType line))) eqn:E;
      [| by apply String_not_empty].
    unfold CasbinRule_String, appendOrTerminate. by rewrite E. }
  split; [exact Hs |].
  unfold Incomplete, AddPolicy_key. cbn. rewrite Hs. apply andb_true_r.
Qed.

(** ** The comparison helpers of the tests *)

Lemma flat_concat (arr2D : list (list string)) : flat arr2D = concat arr2D.
Proof.
  unfold flat.
  assert (∀ (arr res : list string),
            foldl (λ res e, res ++ [e]) res arr = res ++ arr) as Hin.
  { induction arr as [| e arr IH]; intros res; cbn.
    - by rewrite app_nil_r.
    - rewrite IH. by rewrite <- app_assoc. }
  assert (∀ (l : list (list string)) (res : list string),
            foldl (λ res arr, foldl (λ res e, res ++ [e]) res arr) res l
            = res ++ concat l) as Hout.
  { induction l as [| arr l IH]; intros res; cbn.
    - by rewrite app_nil_r.
    - rewrite IH, Hin. by rewrite <- app_assoc. }
  apply Hout.
Qed.

Lemma occurrences_cons (a : string) (l : list string) (s : string) :
  occurrences (a :: l) s
  = if decide (a = s) then S (occurrences l s) else occurrences l s.
Proof.
  unfold occurrences. cbn. destruct (string_dec a s), (decide (a = s)); done.
Qed.

Lemma occurrences_le_length (l : list string) (s : string) :
  (occurrences l s ≤ length l)%nat.
Proof.
  induction l as [| a l IH]; [done |].
  rewrite occurrences_cons. cbn. destruct (decide _); lia.
Qed.

Lemma holdsCounts_mapGet (diff : gmap string Z) (c : string → nat) (s : string) :
  holdsCounts diff c → mapGet diff s = Z.of_nat (c s).
Proof.
  intros H. unfold mapGet. rewrite (H s). destruct (decide _) as [-> |]; done.
Qed.

Lemma holdsCounts_increment (diff : gmap string Z) (c : string → nat)
    (x : string) :
  holdsCounts diff c → Z.of_nat (c x) ≤ maxLen →
  holdsCounts (increment diff x) (λ s, if decide (x = s) then S (c s) else c s).
Proof.
  intros H Hb s. unfold increment.
  rewrite (holdsCounts_mapGet diff c x H).
  unfold int_add. rewrite int_wrap_id.
  2: { unfold is_int, int_min, int_max, maxLen in *. lia. }
  destruct (decide (x = s)) as [<- | Hne].
  - rewrite lookup_insert_eq. rewrite decide_False by done. f_equal. lia.
  - rewrite lookup_insert_ne by done. apply H.
Qed.

Lemma holdsCounts_count (x : list string) (diff : gmap string Z)
    (c : string → nat) :
  holdsCounts diff c →
  (∀ s, Z.of_nat (c s + occurrences x s) ≤ maxLen) →
  holdsCounts (foldl increment diff x) (λ s, (c s + occurrences x s)%nat).
Proof.
  revert diff c. induction x as [| a x IH]; intros diff c H Hb.
  - intros s. cbn. rewrite Nat.add_0_r. apply H.
  - cbn [foldl].
    assert (holdsCounts (foldl increment (increment diff a) x)
              (λ s, ((if decide (a = s) then S (c s) else c s)
                     + occurrences x s)%nat)) as H'.
    { apply IH.
      - apply holdsCounts_increment; [done |].
        specialize (Hb a). lia.
      - intros s. specialize (Hb s). rewrite occurrences_cons in Hb.
        destruct (decide (a = s)); lia. }
    intros s. rewrite (H' s), occurrences_cons.
    destruct (decide (a = s)); cbn;
      repeat (destruct (decide _)); try lia; f_equal; lia.
Qed.

Lemma holdsCounts_cancel (y : list string) (diff : gmap string Z)
    (c : string → nat) :
  holdsCounts diff c →
  (∀ s, Z.of_nat (c s) ≤ maxLen) →
  match sameStringSlice_cancel y diff with
  | None => ∃ s, (c s < occurrences y s)%nat
  | Some diff' =>
      (∀ s, (occurrences y s ≤ c s)%nat)
      ∧ holdsCounts diff' (λ s, (c s - occurrences y s)%nat)
  end.
Proof.
  revert diff c. induction y as [| a y IH]; intros diff c H Hb.
  - cbn. split; [intros s; unfold occurrences; cbn; lia |].
    intros s. unfold occurrences. cbn. rewrite Nat.sub_0_r. apply H.
  - cbn [sameStringSlice_cancel].
    pose proof (H a) as Ha. destruct (decide (c a = 0%nat)) as [Hz | Hz].
    + rewrite Ha. exists a. rewrite occurrences_cons, decide_True by done. lia.
    + rewrite Ha.
      set (c' := λ s, if decide (a = s) then (c s - 1)%nat else c s).
      assert (holdsCounts
                (if mapGet (decrement diff a) a =? 0
                 then delete a (decrement diff a) else decrement diff a) c')
        as H'.
      { assert (mapGet (decrement diff a) a = Z.of_nat (c a) - 1) as ->.
        { unfold mapGet, decrement. rewrite lookup_insert_eq. cbn.
          rewrite (holdsCounts_mapGet diff c a H).
          unfold int_sub. apply int_wrap_id.
          specialize (Hb a).
          unfold is_int, int_min, int_max, maxLen in *. lia. }
        intros s. unfold c'. destruct (decide (a = s)) as [<- | Hne].
        - destruct (Z.eqb_spec (Z.of_nat (c a) - 1) 0) as [E | E].
          + rewrite lookup_delete_eq. rewrite decide_True; [done | lia].
          + unfold decrement. rewrite lookup_insert_eq.
            rewrite (holdsCounts_mapGet diff c a H).
            rewrite decide_False by lia.
            unfold int_sub. rewrite int_wrap_id.
            * f_equal. lia.
            * specialize (Hb a).
              unfold is_int, int_min, int_max, maxLen in *. lia.
        - destruct (_ =? 0).
          + rewrite lookup_delete_ne by done. unfold decrement.
            rewrite lookup_insert_ne by done. apply H.
          + unfold decrement. rewrite lookup_insert_ne by done. apply H. }
      specialize (IH _ c' H').
      destruct (sameStringSlice_cancel y _) as [diff' |].
      * destruct IH as [Hle Hrep].
        { intros s. unfold c'. specialize (Hb s). destruct (decide _); lia. }
        split.
        -- intros s. specialize (Hle s). unfold c' in Hle.
           rewrite occurrences_cons. destruct (decide (a = s)); [subst |]; lia.
        -- intros s. rewrite (Hrep s). unfold c'. rewrite occurrences_cons.
           destruct (decide (a = s)); [subst |];
             repeat (destruct (decide _)); try lia; f_equal; lia.
      * destruct IH as [s Hs].
        { intros s. unfold c'. specialize (Hb s). destruct (decide _); lia. }
        exists s. unfold c' in Hs. rewrite occurrences_cons.
        destruct (decide (a = s)); [subst |]; lia.
Qed.

(** X17. [sameStringSlice] of the tests decides equality of bags: for
    slices of a length that Go can hold, it returns true exactly when one
    slice is a permutation of the other; and [flat] is concatenation, so the
    comparison of two policies in the tests sees the fields of all rules as
    one bag and not the rules themselves. *)
Theorem sameStringSlice_iff_permutation (x y : list string) :
  len x ≤ maxLen →
  (sameStringSlice x y = true ↔ x ≡ₚ y)
  ∧ (∀ arr2D, flat arr2D = concat arr2D).
Proof.
  intros Hlen. split; [| apply flat_concat].
  assert (holdsCounts (foldl increment ∅ x) (occurrences x)) as Hx.
  { pose proof (holdsCounts_count x ∅ (λ _, 0%nat)) as H. cbn in H.
    apply H; [done |].
    intros s. pose proof (occurrences_le_length x s). unfold len in Hlen. lia. }
  assert (∀ s, Z.of_nat (occurrences x s) ≤ maxLen) as Hb.
  { intros s. pose proof (occurrences_le_length x s). unfold len in Hlen. lia. }
  pose proof (holdsCounts_cancel y _ _ Hx Hb) as Hy.
  unfold sameStringSlice. split.
  - destruct (Z.eqb_spec (len x) (len y)) as [_ |]; [| done]. cbn [negb].
    destruct (sameStringSlice_cancel y _) as [diff' |]; [| done].
    destruct Hy as [Hle Hrep].
    destruct (Z.eqb_spec (Z.of_nat (size diff')) 0) as [Hs |]; [| done].
    intros _. apply (Permutation_count_occ string_dec). intros s.
    assert (diff' = ∅) as -> by (apply map_size_empty_iff; lia).
    specialize (Hrep s). specialize (Hle s). rewrite lookup_empty in Hrep.
    fold (occurrences x s). fold (occurrences y s).
    destruct (decide _); [lia | done].
  - intros Hp.
    assert (len x = len y) as -> by (unfold len; by rewrite Hp).
    rewrite Z.eqb_refl. cbn [negb].
    assert (∀ s, occurrences x s = occurrences y s) as Hocc
      by (intros s; by apply (Permutation_count_occ string_dec)).
    destruct (sameStringSlice_cancel y _) as [diff' |].
    + destruct Hy as [_ Hrep].
      assert (diff' = ∅) as ->.
      { apply map_eq. intros s. rewrite (Hrep s), lookup_empty.
        rewrite decide_True; [done |]. rewrite Hocc. lia. }
      by rewrite map_size_empty.
    + destruct Hy as [s Hs]. rewrite Hocc in Hs. lia.
Qed.

Lemma sameStringSlice_iff_permutation_witness :
  sameStringSlice (flat [["alice"; "data1"; "read"]; ["bob"; "data2"; "write"]])
                  (flat [["bob"; "data2"; "write"]; ["alice"; "data1"; "read"]])
  = true.
Proof.
  apply (sameStringSlice_iff_permutation
           (flat [["alice"; "data1"; "read"]; ["bob"; "data2"; "write"]])
           (flat [["bob"; "data2"; "write"]; ["alice"; "data1"; "read"]])).
  - unfold len, maxLen. simpl. lia.
  - cbn. apply (Permutation_app_comm ["alice"; "data1"; "read"]
                  ["bob"; "data2"; "write"]).
Defined.

(** ** Further edge behaviour *)

Lemma loadPolicyLines_policies_witness :
  ∃ model',
    loadPolicyLines [savePolicyLine "p" ["alice"; "data1"; "read"];
                     savePolicyLine "g" ["alice"; "admin"];
                     savePolicyLine "p" ["bob"; "data2"; "write"]] rbacModel
    = Ret model'
    ∧ Policy <$> section model' "p" !! "p"
      = Some [["alice"; "data1"; "read"]; ["bob"; "data2"; "write"]].
Proof.
  destruct (loadPolicyLines _ rbacModel) as [model' | e] eqn:E;
    [| vm_compute in E; discriminate E].
  exists model'. split; [reflexivity |].
  rewrite (loadPolicyLines_policies _ rbacModel model' E "p" "p").
  reflexivity.
Defined.

(** X18. The identity does not tell a comma inside a field from the comma
    between two fields: for a type tag that is not blank and non-empty
    fields a and b free of surrounding white space, the rule with the single
    field "a,b" and the rule with the two fields a and b have the same
    identity, hence the same storage key, though their records differ. *)
Theorem identity_confuses_comma (cfg : Config) (ptype a b : string) :
  isEmpty (TrimSpace ptype) = false →
  trimmed a → trimmed b → trimmed (a +:+ "," +:+ b) →
  a ≠ "" → b ≠ "" →
  let one := savePolicyLine ptype [a +:+ "," +:+ b] in
  let two := savePolicyLine ptype [a; b] in
  CasbinRule_String one = CasbinRule_String two
  ∧ AddPolicy_key (NewAdapterWithConfig cfg) one
    = AddPolicy_key (NewAdapterWithConfig cfg) two
  ∧ one ≠ two.
Proof.
  intros Hp Ha Hb Hab Hane Hbne one two.
  assert (CasbinRule_String one = CasbinRule_String two) as Hid.
  { rewrite !CasbinRule_String_joinComma.
    unfold identity_values, one, two, slots, savePolicyLine.
    cbn -[TrimSpace String.append fieldAt].
    rewrite !fieldAt_lookup. cbn -[TrimSpace String.append].
    change (TrimSpace "") with "".
    unfold trimmed in *. rewrite Hp, Ha, Hb, Hab.
    destruct a as [| ca a']; [done |]. destruct b as [| cb b']; [done |].
    destruct (TrimSpace ptype) as [| ct t]; [done |].
    reflexivity. }
  split; [exact Hid |]. split.
  - unfold AddPolicy_key. by rewrite Hid.
  - intros Heq. apply (f_equal V1) in Heq. cbn in Heq.
    by destruct b.
Qed.

Lemma identity_confuses_comma_witness :
  CasbinRule_String (savePolicyLine "p" ["alice,data1"])
  = CasbinRule_String (savePolicyLine "p" ["alice"; "data1"])
  ∧ savePolicyLine "p" ["alice,data1"] ≠ savePolicyLine "p" ["alice"; "data1"].
Proof.
  destruct (identity_confuses_comma
              {| Kind := ""; Namespace := ""; Debug := false;
                 LoadSaveFilterDeadline := 0; AddRemoveDeadline := 0 |}
              "p" "alice" "data1") as (H1 & _ & H2);
    try reflexivity; try discriminate.
  split; [exact H1 | exact H2].
Defined.


